(** * Knip core: tag filter, issue-type resolver, package discovery and
      workspace scope resolution.

    A shallow embedding of
      - [packages/knip/src/util/tag.ts]
      - [packages/knip/src/util/get-included-issue-types.ts]
      - [packages/knip/src/util/map-workspaces.ts]
      - [packages/knip/src/ConfigurationChief.ts]
    together with the properties the specification states about them. *)

From Stdlib Require Import Ascii String.
From stdpp Require Import base decidable option list gmap strings.

#[local] Set Warnings "-clear-no-such-hyp".


(** ** JavaScript primitives used by the sources *)

Module Js.

(** An insertion-ordered [Set<string>]: a list, [add] appends when the
    element is absent, iteration is in list order. *)
Definition set_has (x : string) (s : list string) : bool :=
  bool_decide (x ∈ s).

Definition set_add (x : string) (s : list string) : list string :=
  if set_has x s then s else s ++ [x].

(** [new Set(array)] *)
Definition set_of_array (a : list string) : list string :=
  fold_left (fun s x => set_add x s) a [].

(** [String.prototype.split] with a one-character separator. *)
Fixpoint split (sep : ascii) (s : string) : list string :=
  match s with
  | EmptyString => [EmptyString]
  | String c rest =>
      if Ascii.eqb c sep then EmptyString :: split sep rest
      else match split sep rest with
           | [] => [String c EmptyString]
           | hd :: tl => String c hd :: tl
           end
  end.

(** [String.prototype.startsWith] *)
Definition startsWith (s pre : string) : bool := String.prefix pre s.

(** The character class [[a-zA-Z]]. *)
Definition is_letter (c : ascii) : bool :=
  let n := nat_of_ascii c in
  ((65 <=? n)%nat && (n <=? 90)%nat) || ((97 <=? n)%nat && (n <=? 122)%nat).

(** The longest prefix made of letters: what [[a-zA-Z]+] consumes once
    it has started. *)
Fixpoint take_letters (s : string) : string :=
  match s with
  | EmptyString => EmptyString
  | String c rest => if is_letter c then String c (take_letters rest) else EmptyString
  end.

(** [s.match(/[a-zA-Z]+/)]: the leftmost match of the greedy pattern,
    [None] for JavaScript's [null]. Only [match[0]] is used. *)
Fixpoint match_letters (s : string) : option string :=
  match s with
  | EmptyString => None
  | String c rest =>
      if is_letter c then Some (String c (take_letters rest))
      else match_letters rest
  end.

(** [Array.prototype.flatMap] *)
Definition flatMap {A B} (f : A -> list B) (l : list A) : list B :=
  flat_map f l.

(** [Array.prototype.some] *)
Definition some {A} (f : A -> bool) (l : list A) : bool := existsb f l.

(** [Array.prototype.includes] on strings *)
Definition includes (l : list string) (x : string) : bool :=
  bool_decide (x ∈ l).

(** [Array.prototype.sort(cmp)]: a stable sort; [cmp a b > 0] moves [a]
    behind [b]. *)
Fixpoint sort_insert (cmp : string -> string -> Z) (x : string) (l : list string)
  : list string :=
  match l with
  | [] => [x]
  | y :: l' => if (0 <? cmp x y)%Z then y :: sort_insert cmp x l' else x :: y :: l'
  end.

Definition sort (cmp : string -> string -> Z) (l : list string) : list string :=
  foldr (sort_insert cmp) [] l.

(** [s.includes(c)] for a one-character [c]. *)
Fixpoint has_char (c : ascii) (s : string) : bool :=
  match s with
  | EmptyString => false
  | String c' rest => Ascii.eqb c' c || has_char c rest
  end.

(** [Array.prototype.find] *)
Definition find {A} (f : A -> bool) (l : list A) : option A := List.find f l.

(** [s.replace(/\/$/, '')]: drops one trailing slash. *)
Fixpoint strip_trailing_slash (s : string) : string :=
  match s with
  | EmptyString => EmptyString
  | String c rest =>
      match rest with
      | EmptyString => if Ascii.eqb c "/" then EmptyString else s
      | _ => String c (strip_trailing_slash rest)
      end
  end.

(** [s.replace(/^\.\//, '')]: drops one leading [./]. *)
Definition strip_leading_dot_slash (s : string) : string :=
  match s with
  | String "." (String "/" rest) => rest
  | _ => s
  end.

End Js.

(** ** [util/tag.ts] *)

Module Tag.

(** [type Tags = [string[], string[]]] *)
Definition Tags : Type := list string * list string.

(** The reducer of [splitTags]. *)
Definition splitTags_step (acc : Tags) (tag : string) : Tags :=
  let '(incl, excl) := acc in
  match Js.match_letters tag with
  | Some m =>
      if Js.startsWith tag "-" then (incl, excl ++ [m]) else (incl ++ [m], excl)
  | None => (incl, excl)
  end.

Definition splitTags (tags : list string) : Tags :=
  fold_left splitTags_step (Js.flatMap (Js.split ",") tags) ([], []).

(** [jsDocTags] arrives either as a [Set<string>] or, after
    de-serialization, as an array. *)
Inductive JsDocTags : Type :=
| TagSet (s : gset string)
| TagArray (a : list string).

(** [if (Array.isArray(jsDocTags)) jsDocTags = new Set(jsDocTags)] *)
Definition as_set (j : JsDocTags) : gset string :=
  match j with
  | TagSet s => s
  | TagArray a => list_to_set a
  end.

Definition hasTag (tags : list string) (jsDocTags : gset string) : bool :=
  Js.some (fun tag => bool_decide (("@" +:+ tag) ∈ jsDocTags)) tags.

Definition shouldIgnore (jsDocTags : JsDocTags) (tags : Tags) : bool :=
  let jsDocTags := as_set jsDocTags in
  let '(includeJSDocTags, excludeJSDocTags) := tags in
  if (0 <? length includeJSDocTags)%nat && negb (hasTag includeJSDocTags jsDocTags) then true
  else if (0 <? length excludeJSDocTags)%nat && hasTag excludeJSDocTags jsDocTags then true
  else false.

(** What one comma-separated token contributes, in the words of the
    specification: nothing without a letter, otherwise its first run
    of letters, to the exclude list when the token starts with [-]. *)
Definition included_tokens (tokens : list string) : list string :=
  omap (fun t => if Js.startsWith t "-" then None else Js.match_letters t) tokens.

Definition excluded_tokens (tokens : list string) : list string :=
  omap (fun t => if Js.startsWith t "-" then Js.match_letters t else None) tokens.

(** Membership in the symbol's tag set, whichever way it arrived. *)
Definition tag_member (x : string) (j : JsDocTags) : Prop :=
  match j with
  | TagSet s => x ∈ s
  | TagArray a => x ∈ a
  end.

Fixpoint all_chars (p : ascii -> bool) (s : string) : bool :=
  match s with
  | EmptyString => true
  | String c rest => p c && all_chars p rest
  end.

Definition starts_with_letter (s : string) : bool :=
  match s with
  | EmptyString => false
  | String c _ => Js.is_letter c
  end.

(** [m] is the first maximal run of letters of [token]. *)
Definition first_letter_run (token m : string) : Prop :=
  ∃ pre post,
    token = pre +:+ m +:+ post
    ∧ all_chars (fun c => negb (Js.is_letter c)) pre = true
    ∧ m ≠ ""
    ∧ all_chars Js.is_letter m = true
    ∧ starts_with_letter post = false.

End Tag.

(** ** Errors

    [ConfigurationError] is the one fatal error kind; [_require] may also
    fail with Node's [MODULE_NOT_FOUND] or with anything else. *)

Inductive exn : Type :=
| ConfigurationError (message : string)
| ModuleNotFound
| OtherError (message : string).

Inductive result (A : Type) : Type :=
| Ok (a : A)
| Throw (e : exn).

Arguments Ok {A} a.
Arguments Throw {A} e.

#[global] Instance result_ret : MRet result := fun A a => Ok a.

#[global] Instance result_bind : MBind result := fun A B k r =>
  match r with
  | Ok a => k a
  | Throw e => Throw e
  end.

(** ** [util/get-included-issue-types.ts] *)

Module IssueTypes.

Record CLIArguments : Type := {
  cli_include : list string;
  cli_exclude : list string;
  cli_dependencies : bool;
  cli_exports : bool;
  cli_files : bool
}.

(** The fields the function destructures from [Options]; each is
    optional and has a default. *)
Record Options : Type := {
  opt_include : option (list string);
  opt_exclude : option (list string);
  opt_isProduction : option bool
}.

(** [= {}] *)
Definition no_options : Options :=
  {| opt_include := None; opt_exclude := None; opt_isProduction := None |}.

Definition defaultExcludedIssueTypes : list string :=
  ["classMembers"; "nsExports"; "nsTypes"].

Definition normalize (values : list string) : list string :=
  Js.flatMap (Js.split ",") values.

Section Taxonomy.

(** [ISSUE_TYPES] lives in [constants.ts]: the fixed taxonomy. *)
Variable ISSUE_TYPES : list string.

Definition defaultIssueTypes : list string :=
  filter (fun type => negb (Js.includes defaultExcludedIssueTypes type) = true) ISSUE_TYPES.

(** The validation loop: throws at the first type outside the
    taxonomy. *)
Fixpoint check_types (types : list string) : result unit :=
  match types with
  | [] => Ok tt
  | type :: rest =>
      if negb (Js.includes ISSUE_TYPES type)
      then Throw (ConfigurationError ("Invalid issue type: " +:+ type))
      else check_types rest
  end.

Section Call.

Variable cliArgs : CLIArguments.
Variable options : Options.

Definition include : list string := default [] (opt_include options).
Definition exclude : list string := default [] (opt_exclude options).
Definition isProduction : bool := default false (opt_isProduction options).

Definition excl : list string := normalize (cli_exclude cliArgs).

(** [incl] before the convenience flags extend it. *)
Definition incl0 : list string := normalize (cli_include cliArgs).

(** Everything the validation loop looks at, in its order. *)
Definition checked_types : list string :=
  incl0 ++ excl ++ include ++ exclude.

Definition excludes : list string :=
  filter (fun exclude => negb (Js.includes incl0 exclude) = true) exclude.

Definition includes : list string :=
  filter (fun include => negb (Js.includes excl include) = true) include.

Definition incl : list string :=
  let incl := incl0 in
  let incl :=
    if cli_dependencies cliArgs
    then incl ++ ["dependencies"; "optionalPeerDependencies"; "unlisted"; "binaries"; "unresolved"]
    else incl in
  let incl :=
    if cli_exports cliArgs
    then incl ++ ["exports"; "nsExports"; "classMembers"; "types"; "nsTypes"; "enumMembers"; "duplicates"]
    else incl in
  if cli_files cliArgs then incl ++ ["files"] else incl.

(** [_include] and [_exclude] as first built. *)
Definition _include0 : list string := incl ++ includes.
Definition _exclude0 : list string := excl ++ excludes.

(** [_include] and [_exclude] after the production / dependencies
    pushes. *)
Definition _include : list string :=
  if isProduction then _include0
  else if Js.includes _include0 "dependencies"
       then _include0 ++ ["devDependencies"; "optionalPeerDependencies"]
       else _include0.

Definition _exclude : list string :=
  if isProduction then _exclude0 ++ ["devDependencies"]
  else if Js.includes _exclude0 "dependencies"
       then _exclude0 ++ ["devDependencies"; "optionalPeerDependencies"]
       else _exclude0.

Definition included : list string :=
  filter (fun group => negb (Js.includes _exclude group) = true)
    (if (0 <? length _include)%nat
     then if Js.some (fun type => negb (Js.includes defaultExcludedIssueTypes type)) _include
          then _include
          else _include ++ defaultIssueTypes
     else defaultIssueTypes).

(** [Report]: one boolean per issue type. *)
Definition report : gmap string bool :=
  fold_left (fun types group => <[group := Js.includes included group]> types)
    ISSUE_TYPES ∅.

Definition getIncludedIssueTypes : result (gmap string bool) :=
  _ ← check_types checked_types;
  Ok report.

End Call.
End Taxonomy.

(** The default set in the words of the specification: the taxonomy
    minus [classMembers], [nsExports] and [nsTypes]. *)
Definition is_default_type (ISSUE_TYPES : list string) (t : string) : Prop :=
  t ∈ ISSUE_TYPES ∧ t ≠ "classMembers" ∧ t ≠ "nsExports" ∧ t ≠ "nsTypes".

(** The taxonomy made of the issue types the resolver itself names. *)
Definition named_issue_types : list string :=
  ["files"; "dependencies"; "devDependencies"; "optionalPeerDependencies";
   "unlisted"; "binaries"; "unresolved"; "exports"; "nsExports"; "types";
   "nsTypes"; "enumMembers"; "classMembers"; "duplicates"].

(** [ConfigurationChief.getIncludedIssueTypes]: the CLI arguments of the
    module, and the configuration with the rules that are [off] put in
    front of its exclude list. [getKeysByValue] lives in
    [util/object.ts]; [Rules] is the type of [config.rules]. *)
Definition chief_getIncludedIssueTypes (ISSUE_TYPES : list string)
    {Rules : Type} (getKeysByValue : Rules -> string -> list string)
    (cliArgs : CLIArguments) (rules : Rules)
    (config_include config_exclude : list string) (isProduction : bool)
  : result (gmap string bool) :=
  let excludesFromRules := getKeysByValue rules "off" in
  let config :=
    {| opt_include := Some config_include;
       opt_exclude := Some (excludesFromRules ++ config_exclude);
       opt_isProduction := Some isProduction |} in
  getIncludedIssueTypes ISSUE_TYPES cliArgs config.

End IssueTypes.

(** ** [Map<string, V>]

    Insertion ordered; [set] on a present key replaces the value in
    place, so a key never occurs twice. *)

Module JsMap.

Definition t (V : Type) : Type := list (string * V).

Definition empty {V} : t V := [].

Fixpoint set {V} (k : string) (v : V) (m : t V) : t V :=
  match m with
  | [] => [(k, v)]
  | (k', v') :: m' =>
      if String.eqb k' k then (k, v) :: m' else (k', v') :: set k v m'
  end.

Fixpoint get {V} (k : string) (m : t V) : option V :=
  match m with
  | [] => None
  | (k', v') :: m' => if String.eqb k' k then Some v' else get k m'
  end.

Definition has {V} (k : string) (m : t V) : bool :=
  match get k m with Some _ => true | None => false end.

Definition keys {V} (m : t V) : list string := m.*1.

End JsMap.

(** ** [util/map-workspaces.ts] and [ConfigurationChief.ts] *)

Module Workspaces.

(** [manifest.workspaces]: an array, or an object with an optional
    [packages] array. *)
Inductive WorkspacesField : Type :=
| WsArray (patterns : list string)
| WsObject (packages : option (list string)).

(** The manifest fields read here. *)
Record PackageJson : Type := {
  pj_name : option string;
  pj_workspaces : option WorkspacesField
}.

Record Package : Type := {
  pkg_dir : string;
  pkg_name : string;
  pkg_pkgName : option string;
  pkg_manifest : PackageJson
}.

(** [Graph]: a record from directory to a set of directories. *)
Definition Graph : Type := gmap string (list string).

(** The parts of the raw configuration read here: the keys of
    [workspaces] and [ignoreWorkspaces]. *)
Record RawConfiguration : Type := {
  raw_workspaces : option (list string);
  raw_ignoreWorkspaces : option (list string)
}.

(** The state of the dependents walk: the two sets the closure
    [addDependents] captures. [calls] records the argument of every
    invocation in order; the source has no such variable and nothing
    reads it. *)
Record WalkState : Type := {
  seen : gset string;
  workspaceDirsWithDependents : list string;
  calls : list string
}.

(** Every directory that occurs inside some entry of the graph. *)
Definition graph_targets (graph : Graph) : gset string :=
  ⋃ ((fun entry : string * list string => list_to_set entry.2) <$> map_to_list graph).

(** [entry] is among the graph entries of [dir]: one edge of the walk. *)
Definition graph_edge (graph : Graph) (dir entry : string) : Prop :=
  ∃ entries, graph !! dir = Some entries ∧ entry ∈ entries.

(** [dir] is one of the [starts] or is reached from one by following
    graph entries. *)
Definition reached (graph : Graph) (starts : list string) (dir : string) : Prop :=
  ∃ start, start ∈ starts ∧ rtc (graph_edge graph) start dir.

(** [for (const dir of dirs) if (!seen.has(dir)) visit(dir)] *)
Fixpoint each_unseen (visit : string -> WalkState -> option WalkState)
    (dirs : list string) (st : WalkState) : option WalkState :=
  match dirs with
  | [] => Some st
  | dir :: rest =>
      if bool_decide (dir ∈ seen st) then each_unseen visit rest st
      else match visit dir st with
           | Some st' => each_unseen visit rest st'
           | None => None
           end
  end.

Section Walk.

Variable graph : Graph.
Variable initialWorkspaces : list string.

Fixpoint addDependents (fuel : nat) (dir : string) (st : WalkState)
  : option WalkState :=
  match fuel with
  | O => None
  | S fuel' =>
      let st :=
        {| seen := {[dir]} ∪ seen st;
           workspaceDirsWithDependents := workspaceDirsWithDependents st;
           calls := calls st ++ [dir] |} in
      match graph !! dir with
      | None => Some st
      | Some dirs =>
          if (length dirs =? 0)%nat then Some st
          else
            let st :=
              if Js.some (fun dir => Js.set_has dir dirs) initialWorkspaces
              then {| seen := seen st;
                      workspaceDirsWithDependents :=
                        Js.set_add dir (workspaceDirsWithDependents st);
                      calls := calls st |}
              else st in
            each_unseen (addDependents fuel') dirs st
      end
  end.

(** [availableWorkspaceDirs.forEach(addDependents)] *)
Fixpoint forEach_addDependents (fuel : nat) (dirs : list string) (st : WalkState)
  : option WalkState :=
  match dirs with
  | [] => Some st
  | dir :: rest =>
      match addDependents fuel dir st with
      | Some st' => forEach_addDependents fuel rest st'
      | None => None
      end
  end.

(** A directory has an initial workspace among its graph entries: the
    test that adds it to [workspaceDirsWithDependents]. *)
Definition has_initial_entry (dir : string) : Prop :=
  ∃ entries i, graph !! dir = Some entries ∧ i ∈ initialWorkspaces ∧ i ∈ entries.

(** Every directory of [s] outside [pending] has all its entries in
    [s]. *)
Definition closed_except (pending s : gset string) : Prop :=
  ∀ x y, x ∈ s → x ∉ pending → graph_edge graph x y → y ∈ s.

(** Each directory seen so far went through the test: with an initial
    workspace among its entries it has been added. *)
Definition tested (st : WalkState) : Prop :=
  ∀ x, x ∈ seen st → has_initial_entry x → x ∈ workspaceDirsWithDependents st.

(** What holds between the states before and after a walk that
    returns, whatever the fuel was; [reach] bounds what it may see. *)
Record walk_sound (reach : string -> Prop) (st st' : WalkState) : Prop := {
  sound_seen : ∀ x, x ∈ seen st' → x ∈ seen st ∨ reach x;
  sound_grows : seen st ⊆ seen st';
  sound_added : ∀ x, x ∈ workspaceDirsWithDependents st' →
                     x ∈ workspaceDirsWithDependents st
                     ∨ (has_initial_entry x ∧ x ∈ seen st');
  sound_keeps : ∀ x, x ∈ workspaceDirsWithDependents st →
                     x ∈ workspaceDirsWithDependents st';
  sound_tested : tested st → tested st';
  sound_closed : ∀ pending, closed_except pending (seen st) →
                            closed_except pending (seen st')
}.

End Walk.

Section Chief.

(** Collaborators and constants that live in other modules. *)
Variable ROOT_WORKSPACE_NAME : string.                 (* constants.ts *)
Variable join : string -> string -> string.            (* util/path.ts *)
Variable relative : string -> string -> string.        (* util/path.ts *)
Variable existsSync : string -> bool.                  (* node:fs *)
Variable byPathDepth : string -> string -> Z.          (* util/workspace.ts *)
Variable isMatch : string -> list string -> bool.      (* picomatch.isMatch *)
Variable fastGlob : string -> list string -> list string -> list string.
Variable _dirGlob : string -> list string -> list string.
Variable _require : string -> result PackageJson.
Variable getPackageName : PackageJson -> string -> option string.
Variable createPkgGraph :
  string -> list string -> list string ->
  JsMap.t Package -> JsMap.t Package -> Graph.

(** Per-workspace configuration, resolved by [getConfigForWorkspace]
    and [getWorkspaceConfig] from the raw configuration. *)
Variable WorkspaceConfiguration : Type.
Variable IgnorePatterns : Type.
Variable getConfigForWorkspace : string -> WorkspaceConfiguration.
Variable getIgnoreMembers : string -> IgnorePatterns.

(** The module-level [workspaceArg]: [undefined] without
    [--workspace]. *)
Variable workspaceArg : option string.

Record Workspace : Type := {
  ws_name : string;
  ws_pkgName : string;
  ws_dir : string;
  ws_ancestors : list string;
  ws_config : WorkspaceConfiguration;
  ws_manifestPath : string;
  ws_ignoreMembers : IgnorePatterns
}.

(** The fields of the class read or written from [setWorkspaces]
    on. *)
Record ConfigurationChief : Type := {
  cwd : string;
  isStrict : bool;
  ignoreWorkspaces : list string;            (* config.ignoreWorkspaces *)
  manifest : option PackageJson;
  rawConfig : option RawConfiguration;
  ignoredWorkspacePatterns : list string;
  workspacePackages : JsMap.t Package;
  workspacePackagesByName : JsMap.t Package;
  additionalWorkspaceNames : list string;
  availableWorkspaceNames : list string;
  availableWorkspacePkgNames : list string;
  availableWorkspaceDirs : list string;
  packageGraph : option Graph;
  includedWorkspaces : list Workspace
}.

(** [workspaceArg] where the source tests it for truthiness: an
    empty string counts as absent. *)
Definition selector : option string :=
  match workspaceArg with
  | Some w => if String.eqb w "" then None else Some w
  | None => None
  end.

(** [partition] of [map-workspaces.ts] *)
Definition partition {T} (collection : list T) (predicate : T -> bool)
  : list T * list T :=
  fold_left
    (fun results item =>
       if predicate item then (results.1 ++ [item], results.2)
       else (results.1, results.2 ++ [item]))
    collection ([], []).

(** One round of the loop over the glob matches. *)
Definition mapWorkspaces_step (cwd : string)
    (acc : JsMap.t Package * JsMap.t Package) (name : string)
  : result (JsMap.t Package * JsMap.t Package) :=
  let '(byPkgDir, byPkgName) := acc in
  let dir := join cwd name in
  let filePath := join dir "package.json" in
  match _require filePath with
  | Throw ModuleNotFound => Ok (byPkgDir, byPkgName)
  | Throw e => Throw e
  | Ok manifest =>
      let pkgName := getPackageName manifest dir in
      let pkg := {| pkg_dir := dir; pkg_name := name;
                    pkg_pkgName := pkgName; pkg_manifest := manifest |} in
      let byPkgDir := JsMap.set name pkg byPkgDir in
      match pkgName with
      | Some n =>
          if String.eqb n ""
          then Throw (ConfigurationError ("Missing package name in " +:+ filePath))
          else Ok (byPkgDir, JsMap.set n pkg byPkgName)
      | None => Throw (ConfigurationError ("Missing package name in " +:+ filePath))
      end
  end.

Fixpoint mapWorkspaces_loop (cwd : string) (matches : list string)
    (acc : JsMap.t Package * JsMap.t Package)
  : result (JsMap.t Package * JsMap.t Package) :=
  match matches with
  | [] => Ok acc
  | name :: rest =>
      acc ← mapWorkspaces_step cwd acc name;
      mapWorkspaces_loop cwd rest acc
  end.

Definition mapWorkspaces (cwd : string) (workspaces : list string)
  : result (JsMap.t Package * JsMap.t Package) :=
  let '(negatedPatterns, patterns) :=
    partition workspaces (fun p => Js.startsWith p "!") in
  if (length patterns =? 0)%nat && (length negatedPatterns =? 0)%nat
  then Ok (JsMap.empty, JsMap.empty)
  else
    let matches :=
      fastGlob cwd patterns ("**/node_modules/**" :: negatedPatterns) in
    mapWorkspaces_loop cwd matches (JsMap.empty, JsMap.empty).

Definition getListedWorkspaces (c : ConfigurationChief) : list string :=
  match manifest c with
  | Some m =>
      match pj_workspaces m with
      | Some (WsArray l) => l
      | Some (WsObject packages) => default [] packages
      | None => []
      end
  | None => []
  end.

(** [name.replace(/^!/, '')] *)
Definition strip_bang (name : string) : string :=
  match name with
  | String "!" rest => rest
  | _ => name
  end.

Definition getIgnoredWorkspacePatterns (c : ConfigurationChief) : list string :=
  let ignoredWorkspaces :=
    map strip_bang
      (filter (fun name => Js.startsWith name "!" = true) (getListedWorkspaces c)) in
  ignoredWorkspaces ++ ignoreWorkspaces c.

Definition getConfiguredWorkspaceKeys (c : ConfigurationChief) : list string :=
  let initialWorkspaces :=
    match rawConfig c with
    | Some raw => default [ROOT_WORKSPACE_NAME] (raw_workspaces raw)
    | None => [ROOT_WORKSPACE_NAME]
    end in
  let ignoreWorkspaces :=
    match rawConfig c with
    | Some raw => default [] (raw_ignoreWorkspaces raw)
    | None => []
    end in
  filter (fun workspaceName => negb (Js.includes ignoreWorkspaces workspaceName) = true)
    initialWorkspaces.

(** [key.includes('*')] *)
Fixpoint has_star (key : string) : bool :=
  match key with
  | EmptyString => false
  | String c rest => Ascii.eqb c "*" || has_star rest
  end.

Definition getAdditionalWorkspaceNames (c : ConfigurationChief) : list string :=
  let workspaceKeys := getConfiguredWorkspaceKeys c in
  let patterns := filter (fun key => has_star key = true) workspaceKeys in
  let dirs := filter (fun key => negb (has_star key) = true) workspaceKeys in
  let globbedDirs := _dirGlob (cwd c) patterns in
  Js.set_of_array
    (filter
       (fun name =>
          negb (String.eqb name ROOT_WORKSPACE_NAME)
          && negb (JsMap.has name (workspacePackages c))
          && negb (isMatch name (ignoredWorkspacePatterns c)) = true)
       (dirs ++ globbedDirs)).

Definition getAvailableWorkspaceNames (c : ConfigurationChief) (names : list string)
  : list string :=
  filter (fun name => negb (isMatch name (ignoredWorkspacePatterns c)) = true)
    (names ++ additionalWorkspaceNames c).

(** The loop of [getAvailableWorkspacePkgNames] over the remaining
    package names, [names] being the set built so far. *)
Fixpoint getAvailableWorkspacePkgNames_loop (c : ConfigurationChief)
    (pkgNames : list string) (names : list string) : result (list string) :=
  match pkgNames with
  | [] => Ok names
  | pkgName :: rest =>
      if Js.set_has pkgName names
      then Throw (ConfigurationError ("Duplicate package name: " +:+ pkgName))
      else
        getAvailableWorkspacePkgNames_loop c rest
          (if negb (isMatch pkgName (ignoredWorkspacePatterns c))
           then Js.set_add pkgName names else names)
  end.

Definition getAvailableWorkspacePkgNames (c : ConfigurationChief)
    (pkgNames : list string) : result (list string) :=
  getAvailableWorkspacePkgNames_loop c pkgNames [].

(** Assignments to the fields of [this]. *)
Definition set_ignoredWorkspacePatterns (v : list string) (c : ConfigurationChief)
  : ConfigurationChief :=
  {| cwd := cwd c;
     isStrict := isStrict c;
     ignoreWorkspaces := ignoreWorkspaces c;
     manifest := manifest c;
     rawConfig := rawConfig c;
     ignoredWorkspacePatterns := v;
     workspacePackages := workspacePackages c;
     workspacePackagesByName := workspacePackagesByName c;
     additionalWorkspaceNames := additionalWorkspaceNames c;
     availableWorkspaceNames := availableWorkspaceNames c;
     availableWorkspacePkgNames := availableWorkspacePkgNames c;
     availableWorkspaceDirs := availableWorkspaceDirs c;
     packageGraph := packageGraph c;
     includedWorkspaces := includedWorkspaces c |}.

Definition set_workspacePackages (v : JsMap.t Package) (c : ConfigurationChief)
  : ConfigurationChief :=
  {| cwd := cwd c;
     isStrict := isStrict c;
     ignoreWorkspaces := ignoreWorkspaces c;
     manifest := manifest c;
     rawConfig := rawConfig c;
     ignoredWorkspacePatterns := ignoredWorkspacePatterns c;
     workspacePackages := v;
     workspacePackagesByName := workspacePackagesByName c;
     additionalWorkspaceNames := additionalWorkspaceNames c;
     availableWorkspaceNames := availableWorkspaceNames c;
     availableWorkspacePkgNames := availableWorkspacePkgNames c;
     availableWorkspaceDirs := availableWorkspaceDirs c;
     packageGraph := packageGraph c;
     includedWorkspaces := includedWorkspaces c |}.

Definition set_workspacePackagesByName (v : JsMap.t Package) (c : ConfigurationChief)
  : ConfigurationChief :=
  {| cwd := cwd c;
     isStrict := isStrict c;
     ignoreWorkspaces := ignoreWorkspaces c;
     manifest := manifest c;
     rawConfig := rawConfig c;
     ignoredWorkspacePatterns := ignoredWorkspacePatterns c;
     workspacePackages := workspacePackages c;
     workspacePackagesByName := v;
     additionalWorkspaceNames := additionalWorkspaceNames c;
     availableWorkspaceNames := availableWorkspaceNames c;
     availableWorkspacePkgNames := availableWorkspacePkgNames c;
     availableWorkspaceDirs := availableWorkspaceDirs c;
     packageGraph := packageGraph c;
     includedWorkspaces := includedWorkspaces c |}.

Definition set_additionalWorkspaceNames (v : list string) (c : ConfigurationChief)
  : ConfigurationChief :=
  {| cwd := cwd c;
     isStrict := isStrict c;
     ignoreWorkspaces := ignoreWorkspaces c;
     manifest := manifest c;
     rawConfig := rawConfig c;
     ignoredWorkspacePatterns := ignoredWorkspacePatterns c;
     workspacePackages := workspacePackages c;
     workspacePackagesByName := workspacePackagesByName c;
     additionalWorkspaceNames := v;
     availableWorkspaceNames := availableWorkspaceNames c;
     availableWorkspacePkgNames := availableWorkspacePkgNames c;
     availableWorkspaceDirs := availableWorkspaceDirs c;
     packageGraph := packageGraph c;
     includedWorkspaces := includedWorkspaces c |}.

Definition set_availableWorkspaceNames (v : list string) (c : ConfigurationChief)
  : ConfigurationChief :=
  {| cwd := cwd c;
     isStrict := isStrict c;
     ignoreWorkspaces := ignoreWorkspaces c;
     manifest := manifest c;
     rawConfig := rawConfig c;
     ignoredWorkspacePatterns := ignoredWorkspacePatterns c;
     workspacePackages := workspacePackages c;
     workspacePackagesByName := workspacePackagesByName c;
     additionalWorkspaceNames := additionalWorkspaceNames c;
     availableWorkspaceNames := v;
     availableWorkspacePkgNames := availableWorkspacePkgNames c;
     availableWorkspaceDirs := availableWorkspaceDirs c;
     packageGraph := packageGraph c;
     includedWorkspaces := includedWorkspaces c |}.

Definition set_availableWorkspacePkgNames (v : list string) (c : ConfigurationChief)
  : ConfigurationChief :=
  {| cwd := cwd c;
     isStrict := isStrict c;
     ignoreWorkspaces := ignoreWorkspaces c;
     manifest := manifest c;
     rawConfig := rawConfig c;
     ignoredWorkspacePatterns := ignoredWorkspacePatterns c;
     workspacePackages := workspacePackages c;
     workspacePackagesByName := workspacePackagesByName c;
     additionalWorkspaceNames := additionalWorkspaceNames c;
     availableWorkspaceNames := availableWorkspaceNames c;
     availableWorkspacePkgNames := v;
     availableWorkspaceDirs := availableWorkspaceDirs c;
     packageGraph := packageGraph c;
     includedWorkspaces := includedWorkspaces c |}.

Definition set_availableWorkspaceDirs (v : list string) (c : ConfigurationChief)
  : ConfigurationChief :=
  {| cwd := cwd c;
     isStrict := isStrict c;
     ignoreWorkspaces := ignoreWorkspaces c;
     manifest := manifest c;
     rawConfig := rawConfig c;
     ignoredWorkspacePatterns := ignoredWorkspacePatterns c;
     workspacePackages := workspacePackages c;
     workspacePackagesByName := workspacePackagesByName c;
     additionalWorkspaceNames := additionalWorkspaceNames c;
     availableWorkspaceNames := availableWorkspaceNames c;
     availableWorkspacePkgNames := availableWorkspacePkgNames c;
     availableWorkspaceDirs := v;
     packageGraph := packageGraph c;
     includedWorkspaces := includedWorkspaces c |}.

Definition set_packageGraph (v : option Graph) (c : ConfigurationChief)
  : ConfigurationChief :=
  {| cwd := cwd c;
     isStrict := isStrict c;
     ignoreWorkspaces := ignoreWorkspaces c;
     manifest := manifest c;
     rawConfig := rawConfig c;
     ignoredWorkspacePatterns := ignoredWorkspacePatterns c;
     workspacePackages := workspacePackages c;
     workspacePackagesByName := workspacePackagesByName c;
     additionalWorkspaceNames := additionalWorkspaceNames c;
     availableWorkspaceNames := availableWorkspaceNames c;
     availableWorkspacePkgNames := availableWorkspacePkgNames c;
     availableWorkspaceDirs := availableWorkspaceDirs c;
     packageGraph := v;
     includedWorkspaces := includedWorkspaces c |}.

Definition set_includedWorkspaces (v : list Workspace) (c : ConfigurationChief)
  : ConfigurationChief :=
  {| cwd := cwd c;
     isStrict := isStrict c;
     ignoreWorkspaces := ignoreWorkspaces c;
     manifest := manifest c;
     rawConfig := rawConfig c;
     ignoredWorkspacePatterns := ignoredWorkspacePatterns c;
     workspacePackages := workspacePackages c;
     workspacePackagesByName := workspacePackagesByName c;
     additionalWorkspaceNames := additionalWorkspaceNames c;
     availableWorkspaceNames := availableWorkspaceNames c;
     availableWorkspacePkgNames := availableWorkspacePkgNames c;
     availableWorkspaceDirs := availableWorkspaceDirs c;
     packageGraph := packageGraph c;
     includedWorkspaces := v |}.

Definition addRootPackage (c : ConfigurationChief) : ConfigurationChief :=
  match manifest c with
  | Some m =>
      let pkgName := default ROOT_WORKSPACE_NAME (pj_name m) in
      let rootPackage :=
        {| pkg_dir := cwd c; pkg_name := ROOT_WORKSPACE_NAME;
           pkg_pkgName := Some pkgName; pkg_manifest := m |} in
      set_workspacePackagesByName
        (JsMap.set pkgName rootPackage (workspacePackagesByName c))
        (set_workspacePackages (JsMap.set "." rootPackage (workspacePackages c)) c)
  | None => c
  end.

(** The reducer [getAncestors(name)]. *)
Definition getAncestors (name : string) (ancestors : list string)
    (ancestorName : string) : list string :=
  if String.eqb name ancestorName then ancestors
  else if String.eqb ancestorName ROOT_WORKSPACE_NAME
          || Js.startsWith name (ancestorName +:+ "/")
       then ancestors ++ [ancestorName]
       else ancestors.

(** The [.map] callback that closes [determineIncludedWorkspaces]. *)
Definition toWorkspace (c : ConfigurationChief) (name : string) : Workspace :=
  let dir := join (cwd c) name in
  let pkgName :=
    match JsMap.get name (workspacePackages c) with
    | Some pkg => default ("NOT_FOUND_" +:+ name) (pkg_pkgName pkg)
    | None => "NOT_FOUND_" +:+ name
    end in
  {| ws_name := name;
     ws_pkgName := pkgName;
     ws_dir := dir;
     ws_config := getConfigForWorkspace name;
     ws_ancestors := fold_left (getAncestors name) (availableWorkspaceNames c) [];
     ws_manifestPath := join dir "package.json";
     ws_ignoreMembers := getIgnoreMembers name |}.

Definition workspaceNames (c : ConfigurationChief) : list string :=
  match selector with
  | Some w => fold_left (getAncestors w) (availableWorkspaceNames c) [] ++ [w]
  | None => availableWorkspaceNames c
  end.

Definition initialWorkspaces (c : ConfigurationChief) : list string :=
  map (fun name => join (cwd c) name) (workspaceNames c).

(** [relative(this.cwd, dir) || ROOT_WORKSPACE_NAME] *)
Definition relative_name (c : ConfigurationChief) (dir : string) : string :=
  let r := relative (cwd c) dir in
  if String.eqb r "" then ROOT_WORKSPACE_NAME else r.

(** The set [ws] once the three-way branch is through; [None] when
    the walk runs out of fuel. *)
Definition included_names (fuel : nat) (c : ConfigurationChief)
  : option (list string) :=
  match selector with
  | Some w =>
      if isStrict c then Some (Js.set_add w [])
      else
        match packageGraph c with
        | Some graph =>
            let st0 :=
              {| seen := ∅;
                 workspaceDirsWithDependents := Js.set_of_array (initialWorkspaces c);
                 calls := [] |} in
            match forEach_addDependents graph (initialWorkspaces c) fuel
                    (availableWorkspaceDirs c) st0 with
            | Some st =>
                Some (fold_left (fun ws dir => Js.set_add (relative_name c dir) ws)
                        (workspaceDirsWithDependents st) [])
            | None => None
            end
        | None => Some []
        end
  | None => Some (fold_left (fun ws name => Js.set_add name ws) (workspaceNames c) [])
  end.

Definition determineIncludedWorkspaces (fuel : nat) (c : ConfigurationChief)
  : option (result (list Workspace)) :=
  match selector with
  | Some w =>
      if negb (existsSync w)
      then Some (Throw (ConfigurationError ("Directory does not exist: " +:+ w)))
      else
        ws ← included_names fuel c;
        Some (Ok (map (toWorkspace c) (Js.sort byPathDepth ws)))
  | None =>
      ws ← included_names fuel c;
      Some (Ok (map (toWorkspace c) (Js.sort byPathDepth ws)))
  end.

(** [setWorkspaces]. The two maps returned by [mapWorkspaces] are the
    very objects stored in the fields, so [addRootPackage] is visible
    through [byName] and [byPkgName]; [sort] and [reverse] work in
    place on [availableWorkspaceNames]. *)
Definition setWorkspaces (fuel : nat) (c : ConfigurationChief)
  : option (result ConfigurationChief) :=
  let c := set_ignoredWorkspacePatterns (getIgnoredWorkspacePatterns c) c in
  match mapWorkspaces (cwd c) (getListedWorkspaces c) with
  | Throw e => Some (Throw e)
  | Ok (byName, byPkgName) =>
      let c := set_workspacePackagesByName byPkgName (set_workspacePackages byName c) in
      let c := addRootPackage c in
      let byName := workspacePackages c in
      let byPkgName := workspacePackagesByName c in
      let c := set_additionalWorkspaceNames (getAdditionalWorkspaceNames c) c in
      let c := set_availableWorkspaceNames
                 (getAvailableWorkspaceNames c (JsMap.keys byName)) c in
      match getAvailableWorkspacePkgNames c (JsMap.keys byPkgName) with
      | Throw e => Some (Throw e)
      | Ok pkgNames =>
          let c := set_availableWorkspacePkgNames pkgNames c in
          let c := set_availableWorkspaceNames
                     (rev (Js.sort byPathDepth (availableWorkspaceNames c))) c in
          let c := set_availableWorkspaceDirs
                     (map (fun dir => join (cwd c) dir) (availableWorkspaceNames c)) c in
          let c := set_packageGraph
                     (Some (createPkgGraph (cwd c) (availableWorkspaceNames c)
                              (availableWorkspacePkgNames c) byPkgName byName)) c in
          match determineIncludedWorkspaces fuel c with
          | Some (Ok ws) => Some (Ok (set_includedWorkspaces ws c))
          | Some (Throw e) => Some (Throw e)
          | None => None
          end
      end
  end.

Definition getIncludedWorkspaces (c : ConfigurationChief) : list Workspace :=
  includedWorkspaces c.

(** The module-level [workspaceArg], from the raw [--workspace] value;
    [toPosix] lives in [util/path.ts]. *)
Definition normalizeWorkspaceArg (toPosix : string -> string)
    (rawWorkspaceArg : option string) : option string :=
  match rawWorkspaceArg with
  | Some raw =>
      if String.eqb raw "" then None
      else Some (Js.strip_trailing_slash (Js.strip_leading_dot_slash (toPosix raw)))
  | None => None
  end.

(** The outcomes of loading the manifest of a glob match in
    [mapWorkspaces]: whether the manifest is there, and whether the
    round goes through (no manifest, or a manifest with a package
    name). *)
Definition manifest_found (cwd name : string) : bool :=
  match _require (join (join cwd name) "package.json") with
  | Throw ModuleNotFound => false
  | _ => true
  end.

Definition manifest_loads (cwd name : string) : bool :=
  match _require (join (join cwd name) "package.json") with
  | Ok manifest =>
      match getPackageName manifest (join cwd name) with
      | Some n => negb (String.eqb n "")
      | None => false
      end
  | Throw ModuleNotFound => true
  | Throw _ => false
  end.

(** What the two maps of [mapWorkspaces] are expected to hold: under a
    directory key the package of that directory, under a name key a
    package of that name that is also filed under its directory. *)
Definition packages_ok (cwd : string) (maps : JsMap.t Package * JsMap.t Package) : Prop :=
  (∀ k pkg, (k, pkg) ∈ maps.1 → pkg_name pkg = k ∧ pkg_dir pkg = join cwd k)
  ∧ (∀ n pkg, (n, pkg) ∈ maps.2 →
       pkg_pkgName pkg = Some n ∧ n ≠ ""
       ∧ pkg_dir pkg = join cwd (pkg_name pkg)
       ∧ pkg_name pkg ∈ JsMap.keys maps.1).

(** [getFilters]: [Some dir] for [{ dir }], [None] for [{}]. *)
Definition getFilters (c : ConfigurationChief) : option string :=
  match packageGraph c, selector with
  | Some _, Some w => Some (join (cwd c) w)
  | _, _ => None
  end.

Definition getManifestForWorkspace (c : ConfigurationChief) (name : string)
  : option PackageJson :=
  pkg_manifest <$> JsMap.get name (workspacePackages c).

Definition getDescendentWorkspaces (c : ConfigurationChief) (name : string)
  : list string :=
  filter
    (fun workspaceName =>
       String.eqb name ROOT_WORKSPACE_NAME
       || Js.startsWith workspaceName (name +:+ "/") = true)
    (filter (fun workspaceName => negb (String.eqb workspaceName name) = true)
       (availableWorkspaceNames c)).

Definition getIgnoredWorkspacesFor (c : ConfigurationChief) (name : string)
  : list string :=
  filter
    (fun workspaceName =>
       String.eqb name ROOT_WORKSPACE_NAME
       || Js.startsWith workspaceName name = true)
    (filter (fun workspaceName => negb (String.eqb workspaceName name) = true)
       (ignoredWorkspacePatterns c)).

Definition findWorkspaceByFilePath (c : ConfigurationChief) (filePath : string)
  : option Workspace :=
  let workspaceDir :=
    Js.find (fun workspaceDir => Js.startsWith filePath (workspaceDir +:+ "/"))
      (availableWorkspaceDirs c) in
  Js.find (fun workspace => bool_decide (Some (ws_dir workspace) = workspaceDir))
    (includedWorkspaces c).

Definition findWorkspaceByName (c : ConfigurationChief) (name : string)
  : option Workspace :=
  Js.find (fun workspace => String.eqb (ws_name workspace) name)
    (includedWorkspaces c).

End Chief.

End Workspaces.

(** ** Concrete inputs *)

Module IssueExamples.
Import IssueTypes.

Definition cli (include exclude : list string) : CLIArguments :=
  {| cli_include := include; cli_exclude := exclude;
     cli_dependencies := false; cli_exports := false; cli_files := false |}.

(** [--include dependencies --exclude devDependencies] *)
Definition include_deps_exclude_dev : CLIArguments :=
  cli ["dependencies"] ["devDependencies"].

(** [--include classMembers,files] *)
Definition include_classMembers_files : CLIArguments :=
  cli ["classMembers,files"] [].

(** [--include files,bogus] *)
Definition include_bogus : CLIArguments :=
  cli ["files,bogus"] [].

Definition production : Options :=
  {| opt_include := Some ["dependencies"]; opt_exclude := None;
     opt_isProduction := Some true |}.

Definition development : Options :=
  {| opt_include := Some ["dependencies"]; opt_exclude := None;
     opt_isProduction := Some false |}.

(** Rules as a list of pairs of an issue type and a severity, and the
    keys that carry a given severity. *)
Definition keys_by_value (rules : list (string * string)) (value : string)
  : list string :=
  (filter (fun rule : string * string => String.eqb rule.2 value = true) rules).*1.

Definition rules_types_off : list (string * string) :=
  [("files", "error"); ("types", "off"); ("exports", "warn")].

End IssueExamples.

Module Monorepo.
Import Workspaces.

(** A repository at [/repo] whose manifest lists [packages/*], with
    the two workspaces [packages/a] and [packages/b]. *)

Definition ROOT_WORKSPACE_NAME : string := ".".

(** [join] and [relative] on the normalized paths that occur here. *)
Definition join (a b : string) : string :=
  if String.eqb b "." then a else a +:+ "/" +:+ b.

Fixpoint strip_prefix (pre s : string) : string :=
  match pre, s with
  | String a pre', String b s' => if Ascii.eqb a b then strip_prefix pre' s' else s
  | _, _ => s
  end.

Definition relative (from to : string) : string :=
  if String.eqb from to then "" else strip_prefix (from +:+ "/") to.

Definition existsSync (path : string) : bool := true.

Fixpoint depth (path : string) : nat :=
  match path with
  | EmptyString => 0
  | String c rest => (if Ascii.eqb c "/" then 1 else 0) + depth rest
  end.

Definition byPathDepth (a b : string) : Z :=
  (Z.of_nat (depth a) - Z.of_nat (depth b))%Z.

Definition isMatch (name : string) (patterns : list string) : bool :=
  Js.includes patterns name.

Definition fastGlob (cwd : string) (patterns ignore : list string) : list string :=
  ["packages/a"; "packages/b"].

Definition _dirGlob (cwd : string) (patterns : list string) : list string := [].

Definition getPackageName (manifest : PackageJson) (dir : string) : option string :=
  pj_name manifest.

Definition root_manifest : PackageJson :=
  {| pj_name := Some "root"; pj_workspaces := Some (WsArray ["packages/*"]) |}.

Definition named (name : string) : PackageJson :=
  {| pj_name := Some name; pj_workspaces := None |}.

(** The manifests on disk: [packages/a] is called [name_a] and
    [packages/b] is called [name_b]. *)
Definition _require (name_a name_b : string) (filePath : string) : result PackageJson :=
  if String.eqb filePath "/repo/packages/a/package.json" then Ok (named name_a)
  else if String.eqb filePath "/repo/packages/b/package.json" then Ok (named name_b)
  else Throw ModuleNotFound.

(** [packages/b] has an edge to [packages/a]. *)
Definition graph : Graph :=
  {[ "/repo" := []; "/repo/packages/a" := [];
     "/repo/packages/b" := ["/repo/packages/a"] ]}.

(** Two packages that point at each other. *)
Definition cyclic_graph : Graph :=
  {[ "/repo/packages/a" := ["/repo/packages/b"];
     "/repo/packages/b" := ["/repo/packages/a"] ]}.

Definition createPkgGraph (cwd : string) (names pkgNames : list string)
    (byPkgName byName : JsMap.t Package) : Graph := graph.

Definition getConfigForWorkspace (name : string) : unit := tt.
Definition getIgnoreMembers (name : string) : unit := tt.

Abbreviation Chief := (ConfigurationChief unit unit).

(** The chief as [init] hands it to [setWorkspaces]. *)
Definition chief (strict : bool) : Chief :=
  {| cwd := "/repo"; isStrict := strict; ignoreWorkspaces := [];
     manifest := Some root_manifest; rawConfig := None;
     ignoredWorkspacePatterns := [];
     workspacePackages := JsMap.empty; workspacePackagesByName := JsMap.empty;
     additionalWorkspaceNames := []; availableWorkspaceNames := [];
     availableWorkspacePkgNames := []; availableWorkspaceDirs := [];
     packageGraph := None; includedWorkspaces := [] |}.

Definition setWorkspaces (name_a name_b : string) (workspaceArg : option string)
    (fuel : nat) (c : Chief) : option (result Chief) :=
  Workspaces.setWorkspaces ROOT_WORKSPACE_NAME join relative existsSync byPathDepth
    isMatch fastGlob _dirGlob (_require name_a name_b) getPackageName createPkgGraph
    unit unit getConfigForWorkspace getIgnoreMembers workspaceArg fuel c.

(** The chief at the moment [determineIncludedWorkspaces] runs. *)
Definition root_package : Package :=
  {| pkg_dir := "/repo"; pkg_name := "."; pkg_pkgName := Some "root";
     pkg_manifest := root_manifest |}.

Definition package_a : Package :=
  {| pkg_dir := "/repo/packages/a"; pkg_name := "packages/a";
     pkg_pkgName := Some "a"; pkg_manifest := named "a" |}.

Definition package_b : Package :=
  {| pkg_dir := "/repo/packages/b"; pkg_name := "packages/b";
     pkg_pkgName := Some "b"; pkg_manifest := named "b" |}.

Definition discovered (strict : bool) : Chief :=
  {| cwd := "/repo"; isStrict := strict; ignoreWorkspaces := [];
     manifest := Some root_manifest; rawConfig := None;
     ignoredWorkspacePatterns := [];
     workspacePackages :=
       [("packages/a", package_a); ("packages/b", package_b); (".", root_package)];
     workspacePackagesByName :=
       [("a", package_a); ("b", package_b); ("root", root_package)];
     additionalWorkspaceNames := [];
     availableWorkspaceNames := ["packages/b"; "packages/a"; "."];
     availableWorkspacePkgNames := ["a"; "b"; "root"];
     availableWorkspaceDirs := ["/repo/packages/b"; "/repo/packages/a"; "/repo"];
     packageGraph := Some graph; includedWorkspaces := [] |}.

Definition determineIncludedWorkspaces (workspaceArg : option string)
    (fuel : nat) (c : Chief) : option (result (list (Workspace unit unit))) :=
  Workspaces.determineIncludedWorkspaces ROOT_WORKSPACE_NAME join relative existsSync
    byPathDepth unit unit getConfigForWorkspace getIgnoreMembers workspaceArg fuel c.

Definition workspace (name pkgName dir : string) (ancestors : list string)
  : Workspace unit unit :=
  {| ws_name := name; ws_pkgName := pkgName; ws_dir := dir;
     ws_ancestors := ancestors; ws_config := tt;
     ws_manifestPath := dir +:+ "/package.json"; ws_ignoreMembers := tt |}.

(** The scope of the repository with [packages/a] selected, strict mode
    off: the root as the ancestor, the selected workspace, and
    [packages/b] for its graph entry. *)
Definition included_all : list (Workspace unit unit) :=
  [workspace "." "root" "/repo" [];
   workspace "packages/a" "a" "/repo/packages/a" ["."];
   workspace "packages/b" "b" "/repo/packages/b" ["."]].

(** The chief once [setWorkspaces] is through. *)
Definition resolved : Chief :=
  set_includedWorkspaces unit unit included_all (discovered false).

(** A third workspace [packages/c] whose entry holds [packages/b],
    whose entry holds [packages/a]: a chain of three. *)
Definition chain_graph : Graph :=
  {[ "/repo" := []; "/repo/packages/a" := [];
     "/repo/packages/b" := ["/repo/packages/a"];
     "/repo/packages/c" := ["/repo/packages/b"] ]}.

Definition package_c : Package :=
  {| pkg_dir := "/repo/packages/c"; pkg_name := "packages/c";
     pkg_pkgName := Some "c"; pkg_manifest := named "c" |}.

Definition chain_discovered : Chief :=
  {| cwd := "/repo"; isStrict := false; ignoreWorkspaces := [];
     manifest := Some root_manifest; rawConfig := None;
     ignoredWorkspacePatterns := [];
     workspacePackages :=
       [("packages/a", package_a); ("packages/b", package_b);
        ("packages/c", package_c); (".", root_package)];
     workspacePackagesByName :=
       [("a", package_a); ("b", package_b); ("c", package_c); ("root", root_package)];
     additionalWorkspaceNames := [];
     availableWorkspaceNames := ["packages/c"; "packages/b"; "packages/a"; "."];
     availableWorkspacePkgNames := ["a"; "b"; "c"; "root"];
     availableWorkspaceDirs :=
       ["/repo/packages/c"; "/repo/packages/b"; "/repo/packages/a"; "/repo"];
     packageGraph := Some chain_graph; includedWorkspaces := [] |}.

(** How far a directory of the example graphs is from the end of the
    chain. *)
Definition chain_rank (dir : string) : nat :=
  if String.eqb dir "/repo/packages/c" then 2
  else if String.eqb dir "/repo/packages/b" then 1
  else 0.

Definition start : WalkState :=
  {| seen := ∅; workspaceDirsWithDependents := []; calls := [] |}.

End Monorepo.

(** * Properties *)

(** ** Tag filter *)

Module TagProps.
Import Tag.

Lemma tag_member_as_set x j : tag_member x j ↔ x ∈ as_set j.
Proof.
  destruct j as [s|a]; simpl; [done|].
  by rewrite elem_of_list_to_set.
Qed.

Lemma hasTag_true tags (s : gset string) :
  hasTag tags s = true ↔ ∃ t, t ∈ tags ∧ ("@" +:+ t) ∈ s.
Proof.
  unfold hasTag, Js.some. rewrite existsb_exists. split.
  - intros (t & Hin & Ht). exists t. split; [by apply list_elem_of_In|].
    by apply bool_decide_eq_true in Ht.
  - intros (t & Hin & Ht). exists t. split; [by apply list_elem_of_In|].
    by apply bool_decide_eq_true.
Qed.

Lemma hasTag_false tags (s : gset string) :
  hasTag tags s = false ↔ ∀ t, t ∈ tags → ("@" +:+ t) ∉ s.
Proof.
  rewrite <- not_true_iff_false, hasTag_true. split.
  - intros Hn t Hin Hs. apply Hn. eauto.
  - intros Hall (t & Hin & Hs). by apply (Hall t).
Qed.

Lemma append_cons c s t : String c s +:+ t = String c (s +:+ t).
Proof. reflexivity. Qed.

Lemma append_nil t : "" +:+ t = t.
Proof. reflexivity. Qed.

Lemma take_letters_split s :
  ∃ post, s = Js.take_letters s +:+ post
          ∧ all_chars Js.is_letter (Js.take_letters s) = true
          ∧ starts_with_letter post = false.
Proof.
  induction s as [|c rest (post & Heq & Hall & Hpost)]; simpl.
  - by exists "".
  - destruct (Js.is_letter c) eqn:Hc.
    + exists post. cbn. rewrite Hc, Hall, append_cons, <- Heq. done.
    + exists (String c rest). cbn. by rewrite Hc.
Qed.

(** What the pattern [[a-zA-Z]+] finds in a token. *)
Lemma match_letters_spec token :
  match Js.match_letters token with
  | Some m => first_letter_run token m
  | None => all_chars (fun c => negb (Js.is_letter c)) token = true
  end.
Proof.
  induction token as [|c rest IH]; simpl; [done|].
  destruct (Js.is_letter c) eqn:Hc; simpl.
  - destruct (take_letters_split rest) as (post & Heq & Hall & Hpost).
    exists "", post. cbn. rewrite Hc, Hall, append_nil, append_cons, <- Heq.
    done.
  - destruct (Js.match_letters rest) as [m|]; [|done].
    destruct IH as (pre & post & -> & Hpre & Hm & Hall & Hpost).
    exists (String c pre), post. cbn. by rewrite Hc, Hpre, append_cons.
Qed.

Lemma fold_splitTags_step tokens incl excl :
  fold_left splitTags_step tokens (incl, excl)
  = (incl ++ included_tokens tokens, excl ++ excluded_tokens tokens).
Proof.
  revert incl excl.
  induction tokens as [|t tokens IH]; intros incl excl; simpl.
  - by rewrite !app_nil_r.
  - unfold included_tokens, excluded_tokens in *. simpl.
    destruct (Js.match_letters t) as [m|], (Js.startsWith t "-");
      simpl; rewrite IH; by rewrite <- ?app_assoc.
Qed.

Lemma splitTags_tokens tags :
  splitTags tags
  = (included_tokens (Js.flatMap (Js.split ",") tags),
     excluded_tokens (Js.flatMap (Js.split ",") tags)).
Proof. unfold splitTags. by rewrite fold_splitTags_step. Qed.

Lemma length_pos_nonempty (l : list string) : (0 <? length l)%nat = true ↔ l ≠ [].
Proof. by destruct l. Qed.

Lemma shouldIgnore_bool j includeTags excludeTags :
  shouldIgnore j (includeTags, excludeTags)
  = ((0 <? length includeTags)%nat && negb (hasTag includeTags (as_set j)))
    || ((0 <? length excludeTags)%nat && hasTag excludeTags (as_set j)).
Proof.
  unfold shouldIgnore.
  by destruct (_ && negb _), (_ && hasTag _ _).
Qed.

(** C7. [shouldIgnore] returns [true] exactly when the include list is
    non-empty and no entry, prefixed with [@], is in the symbol's tag
    set, or the exclude list is non-empty and some entry, prefixed
    with [@], is in it; with both lists empty it returns [false]. *)
Theorem shouldIgnore_iff (jsDocTags : JsDocTags) (includeTags excludeTags : list string) :
  (shouldIgnore jsDocTags (includeTags, excludeTags) = true
   ↔ (includeTags ≠ [] ∧ ∀ t, t ∈ includeTags → ¬ tag_member ("@" +:+ t) jsDocTags)
     ∨ (excludeTags ≠ [] ∧ ∃ t, t ∈ excludeTags ∧ tag_member ("@" +:+ t) jsDocTags))
  ∧ shouldIgnore jsDocTags ([], []) = false.
Proof.
  split; [|done].
  setoid_rewrite tag_member_as_set.
  rewrite (shouldIgnore_bool jsDocTags includeTags excludeTags).
  rewrite orb_true_iff, !andb_true_iff, negb_true_iff.
  by rewrite hasTag_true, hasTag_false, !length_pos_nonempty.
Qed.

(** C9. Each comma-separated token goes to the exclude list when it
    starts with [-] and to the include list otherwise, as its run of
    letters; [splitTags(["a,-b","c"])] is [(["a","c"], ["b"])]. *)
Theorem splitTags_routes_tokens :
  (∀ tags,
     splitTags tags
     = (included_tokens (Js.flatMap (Js.split ",") tags),
        excluded_tokens (Js.flatMap (Js.split ",") tags)))
  ∧ Js.flatMap (Js.split ",") ["a,-b"; "c"] = ["a"; "-b"; "c"]
  ∧ splitTags ["a,-b"; "c"] = (["a"; "c"], ["b"]).
Proof. split; [apply splitTags_tokens|done]. Qed.

(** C10. A token contributes at most one entry, the first maximal run
    of ASCII letters in it, and nothing when it holds no letter:
    [v2beta] gives [v], [foo-bar] gives [foo], and [123], [-] and the
    empty token give nothing. *)
Theorem splitTags_first_letter_run :
  (∀ (acc : Tags) (token : string),
     match Js.match_letters token with
     | Some m =>
         first_letter_run token m
         ∧ splitTags_step acc token
           = (if Js.startsWith token "-" then (acc.1, acc.2 ++ [m])
              else (acc.1 ++ [m], acc.2))
     | None =>
         all_chars (fun c => negb (Js.is_letter c)) token = true
         ∧ splitTags_step acc token = acc
     end)
  ∧ (∀ tags, splitTags tags
             = fold_left splitTags_step (Js.flatMap (Js.split ",") tags) ([], []))
  ∧ splitTags ["v2beta"] = (["v"], [])
  ∧ splitTags ["foo-bar"] = (["foo"], [])
  ∧ splitTags ["-foo-bar"] = ([], ["foo"])
  ∧ splitTags ["123"] = ([], [])
  ∧ splitTags ["-"] = ([], [])
  ∧ splitTags [""] = ([], [])
  ∧ splitTags ["123,-,,x9y"] = (["x"], []).
Proof.
  split; [|done].
  intros [incl excl] token.
  pose proof (match_letters_spec token) as Hspec.
  unfold splitTags_step.
  destruct (Js.match_letters token) as [m|]; [|done].
  split; [done|]. by destruct (Js.startsWith token "-").
Qed.

End TagProps.

(** ** Issue-type resolver *)

Module IssueProps.
Import IssueTypes.

Section Taxonomy.

Variable ISSUE_TYPES : list string.

Lemma includes_true l x : Js.includes l x = true ↔ x ∈ l.
Proof. unfold Js.includes. by rewrite bool_decide_eq_true. Qed.

Lemma includes_false l x : Js.includes l x = false ↔ x ∉ l.
Proof. unfold Js.includes. by rewrite bool_decide_eq_false. Qed.

Lemma fold_insert_lookup (f : string -> bool) l (m : gmap string bool) t :
  fold_left (fun types group => <[group := f group]> types) l m !! t
  = if bool_decide (t ∈ l) then Some (f t) else m !! t.
Proof.
  revert m. induction l as [|g l IH]; intros m; simpl; [done|].
  rewrite IH. destruct (decide (t ∈ l)) as [Hin|Hnin].
  - rewrite !bool_decide_eq_true_2; [done| |done]. by right.
  - rewrite (bool_decide_eq_false_2 _ Hnin).
    destruct (decide (g = t)) as [->|Hne].
    + rewrite lookup_insert_eq, bool_decide_eq_true_2; [done|by left].
    + rewrite lookup_insert_ne by done.
      rewrite bool_decide_eq_false_2; [done|].
      intros [Heq|Hin]%elem_of_cons; [by subst|done].
Qed.

(** The returned map has exactly the taxonomy as its keys. *)
Lemma report_lookup cliArgs options t :
  report ISSUE_TYPES cliArgs options !! t
  = if bool_decide (t ∈ ISSUE_TYPES)
    then Some (Js.includes (included ISSUE_TYPES cliArgs options) t)
    else None.
Proof. unfold report. by rewrite fold_insert_lookup, lookup_empty. Qed.

Lemma report_true cliArgs options t :
  report ISSUE_TYPES cliArgs options !! t = Some true
  ↔ t ∈ ISSUE_TYPES ∧ t ∈ included ISSUE_TYPES cliArgs options.
Proof.
  rewrite report_lookup.
  case_bool_decide as Hin; [|naive_solver].
  split.
  - intros [= H]. split; [done|]. by apply includes_true.
  - intros [_ H%includes_true]. by rewrite H.
Qed.

Lemma report_false cliArgs options t :
  t ∈ ISSUE_TYPES → t ∉ included ISSUE_TYPES cliArgs options →
  report ISSUE_TYPES cliArgs options !! t = Some false.
Proof.
  intros Hin Hnot. rewrite report_lookup, bool_decide_eq_true_2 by done.
  f_equal. by apply includes_false.
Qed.

Lemma check_types_valid types :
  Forall (fun t => t ∈ ISSUE_TYPES) types → check_types ISSUE_TYPES types = Ok tt.
Proof.
  induction 1 as [|t types Ht _ IH]; simpl; [done|].
  apply includes_true in Ht. by rewrite Ht.
Qed.

Lemma check_types_invalid types t :
  t ∈ types → t ∉ ISSUE_TYPES →
  ∃ valid bad rest,
    types = valid ++ bad :: rest
    ∧ Forall (fun t => t ∈ ISSUE_TYPES) valid
    ∧ (bad ∉ ISSUE_TYPES)
    ∧ check_types ISSUE_TYPES types
      = Throw (ConfigurationError ("Invalid issue type: " +:+ bad)).
Proof.
  induction types as [|x types IH]; intros Hin Hbad; [by apply elem_of_nil in Hin|].
  simpl. destruct (Js.includes ISSUE_TYPES x) eqn:Hx; simpl.
  - apply includes_true in Hx.
    apply elem_of_cons in Hin as [->|Hin]; [done|].
    destruct (IH Hin Hbad) as (valid & bad & rest & -> & Hvalid & Hnot & Hthrow).
    exists (x :: valid), bad, rest. by repeat split; [constructor|..].
  - apply includes_false in Hx. by exists [], x, types.
Qed.

Lemma getIncludedIssueTypes_valid cliArgs options :
  Forall (fun t => t ∈ ISSUE_TYPES) (checked_types cliArgs options) →
  getIncludedIssueTypes ISSUE_TYPES cliArgs options
  = Ok (report ISSUE_TYPES cliArgs options).
Proof.
  intros Hvalid. unfold getIncludedIssueTypes.
  by rewrite (check_types_valid _ Hvalid).
Qed.

Lemma elem_of_included cliArgs options t :
  t ∈ included ISSUE_TYPES cliArgs options
  ↔ (t ∉ _exclude cliArgs options)
    ∧ t ∈ (if (0 <? length (_include cliArgs options))%nat
           then if Js.some (fun type => negb (Js.includes defaultExcludedIssueTypes type))
                     (_include cliArgs options)
                then _include cliArgs options
                else _include cliArgs options ++ defaultIssueTypes ISSUE_TYPES
           else defaultIssueTypes ISSUE_TYPES).
Proof.
  unfold included. rewrite list_elem_of_filter, negb_true_iff.
  by rewrite includes_false.
Qed.

Lemma elem_of_defaultIssueTypes t :
  t ∈ defaultIssueTypes ISSUE_TYPES ↔ is_default_type ISSUE_TYPES t.
Proof.
  unfold defaultIssueTypes, is_default_type, defaultExcludedIssueTypes.
  rewrite list_elem_of_filter, negb_true_iff, includes_false.
  rewrite !not_elem_of_cons. pose proof (not_elem_of_nil t). tauto.
Qed.

Lemma some_not_default_excluded l :
  Js.some (fun type => negb (Js.includes defaultExcludedIssueTypes type)) l = true
  ↔ ∃ t, t ∈ l ∧ t ∉ defaultExcludedIssueTypes.
Proof.
  unfold Js.some. rewrite existsb_exists.
  setoid_rewrite negb_true_iff. setoid_rewrite includes_false.
  by setoid_rewrite list_elem_of_In.
Qed.

Lemma elem_of_exclude cliArgs options t :
  isProduction options = false →
  t ∈ _exclude cliArgs options
  ↔ t ∈ _exclude0 cliArgs options
    ∨ ("dependencies" ∈ _exclude0 cliArgs options
       ∧ (t = "devDependencies" ∨ t = "optionalPeerDependencies")).
Proof.
  intros Hprod. unfold _exclude. rewrite Hprod.
  destruct (Js.includes _ "dependencies") eqn:Hd.
  - apply includes_true in Hd.
    rewrite elem_of_app, !elem_of_cons, elem_of_nil. naive_solver.
  - apply includes_false in Hd. naive_solver.
Qed.

Lemma elem_of_include cliArgs options t :
  isProduction options = false →
  "dependencies" ∈ _include0 cliArgs options →
  t ∈ _include cliArgs options
  ↔ t ∈ _include0 cliArgs options
    ∨ t = "devDependencies" ∨ t = "optionalPeerDependencies".
Proof.
  intros Hprod Hd. unfold _include. rewrite Hprod.
  apply includes_true in Hd. rewrite Hd.
  rewrite elem_of_app, !elem_of_cons, elem_of_nil. naive_solver.
Qed.

Lemma include_nonempty (l : list string) x : x ∈ l → (0 <? length l)%nat = true.
Proof. destruct l; [by intros ?%elem_of_nil|done]. Qed.

(** With a non-default-excluded type requested, the included set is
    the include list minus the exclude list. *)
Lemma elem_of_included_requested cliArgs options x t :
  x ∈ _include cliArgs options → x ∉ defaultExcludedIssueTypes →
  t ∈ included ISSUE_TYPES cliArgs options
  ↔ (t ∉ _exclude cliArgs options) ∧ t ∈ _include cliArgs options.
Proof.
  intros Hx Hnd. rewrite elem_of_included.
  rewrite (include_nonempty _ _ Hx).
  replace (Js.some _ _) with true; [done|].
  symmetry. apply some_not_default_excluded. eauto.
Qed.

(** C8. A type outside the taxonomy among the comma-split CLI
    include/exclude values or among the configured include/exclude
    lists makes [getIncludedIssueTypes] throw a configuration error
    that names an invalid type (the first one met) instead of
    returning a map. *)
Theorem invalid_issue_type_rejected cliArgs options t :
  t ∈ normalize (cli_include cliArgs) ∨ t ∈ normalize (cli_exclude cliArgs)
  ∨ t ∈ include options ∨ t ∈ exclude options →
  t ∉ ISSUE_TYPES →
  ∃ valid bad rest,
    checked_types cliArgs options = valid ++ bad :: rest
    ∧ Forall (fun t => t ∈ ISSUE_TYPES) valid
    ∧ (bad ∉ ISSUE_TYPES)
    ∧ getIncludedIssueTypes ISSUE_TYPES cliArgs options
      = Throw (ConfigurationError ("Invalid issue type: " +:+ bad)).
Proof.
  intros Hin Hbad.
  assert (t ∈ checked_types cliArgs options) as Hc.
  { unfold checked_types, incl0, excl. rewrite !elem_of_app. tauto. }
  destruct (check_types_invalid _ _ Hc Hbad)
    as (valid & bad & rest & Heq & Hvalid & Hnot & Hthrow).
  exists valid, bad, rest. repeat split; try done.
  unfold getIncludedIssueTypes. by rewrite Hthrow.
Qed.

(** C3, amended. With valid types: in production mode
    [devDependencies] is [false] whatever is included; otherwise,
    when the include list holds [dependencies], [devDependencies]
    and [optionalPeerDependencies] are [true] exactly when neither
    that category nor [dependencies] is in the exclude list, and when
    the exclude list holds [dependencies] both are [false]. *)
Theorem dependencies_pull_dev_dependencies cliArgs options :
  Forall (fun t => t ∈ ISSUE_TYPES) (checked_types cliArgs options) →
  "devDependencies" ∈ ISSUE_TYPES →
  "optionalPeerDependencies" ∈ ISSUE_TYPES →
  ∃ m,
    getIncludedIssueTypes ISSUE_TYPES cliArgs options = Ok m
    ∧ (isProduction options = true → m !! "devDependencies" = Some false)
    ∧ (isProduction options = false →
       "dependencies" ∈ _include cliArgs options →
       ∀ t, t = "devDependencies" ∨ t = "optionalPeerDependencies" →
         m !! t = Some true
         ↔ (t ∉ _exclude0 cliArgs options)
           ∧ ("dependencies" ∉ _exclude0 cliArgs options))
    ∧ (isProduction options = false →
       "dependencies" ∈ _exclude0 cliArgs options →
       m !! "devDependencies" = Some false
       ∧ m !! "optionalPeerDependencies" = Some false).
Proof.
  intros Hvalid Hdev Hopt.
  exists (report ISSUE_TYPES cliArgs options).
  split; [by apply getIncludedIssueTypes_valid|].
  split; [|split].
  - intros Hprod. apply report_false; [done|].
    rewrite elem_of_included. intros [Hex _]. apply Hex.
    unfold _exclude. rewrite Hprod, elem_of_app, list_elem_of_singleton. by right.
  - intros Hprod Hd t Ht.
    assert ("dependencies" ∈ _include0 cliArgs options) as Hd0.
    { revert Hd. unfold _include. rewrite Hprod.
      destruct (Js.includes _ _) eqn:E; [by apply includes_true in E|done]. }
    assert ("dependencies" ∉ defaultExcludedIssueTypes) as Hnd.
    { unfold defaultExcludedIssueTypes. rewrite !not_elem_of_cons.
      repeat split; [done..|apply not_elem_of_nil]. }
    rewrite report_true, (elem_of_included_requested _ _ _ _ Hd Hnd).
    rewrite (elem_of_exclude _ _ _ Hprod), (elem_of_include _ _ _ Hprod Hd0).
    destruct Ht as [-> | ->]; naive_solver.
  - intros Hprod Hd.
    split; (apply report_false; [done|]);
      rewrite elem_of_included, (elem_of_exclude _ _ _ Hprod); naive_solver.
Qed.

(** C5, amended. With valid types: an empty include list selects the
    default set (the taxonomy minus [classMembers], [nsExports] and
    [nsTypes]); a non-empty include list made only of those three
    selects the requested types and the default set; an include list
    with any other type selects the requested types alone. The
    excluded types are removed in each case. *)
Theorem default_issue_types_layered cliArgs options :
  Forall (fun t => t ∈ ISSUE_TYPES) (checked_types cliArgs options) →
  ∃ m,
    getIncludedIssueTypes ISSUE_TYPES cliArgs options = Ok m
    ∧ (_include cliArgs options = [] →
       ∀ t, m !! t = Some true
            ↔ is_default_type ISSUE_TYPES t ∧ (t ∉ _exclude cliArgs options))
    ∧ (_include cliArgs options ≠ [] →
       (∀ x, x ∈ _include cliArgs options → x ∈ defaultExcludedIssueTypes) →
       ∀ t, m !! t = Some true
            ↔ t ∈ ISSUE_TYPES
              ∧ (t ∈ _include cliArgs options ∨ is_default_type ISSUE_TYPES t)
              ∧ (t ∉ _exclude cliArgs options))
    ∧ (∀ x, x ∈ _include cliArgs options → x ∉ defaultExcludedIssueTypes →
       ∀ t, m !! t = Some true
            ↔ t ∈ ISSUE_TYPES
              ∧ t ∈ _include cliArgs options
              ∧ (t ∉ _exclude cliArgs options)).
Proof.
  intros Hvalid.
  exists (report ISSUE_TYPES cliArgs options).
  split; [by apply getIncludedIssueTypes_valid|].
  split; [|split].
  - intros Hnil t. rewrite report_true, elem_of_included, Hnil. simpl.
    rewrite elem_of_defaultIssueTypes. unfold is_default_type. naive_solver.
  - intros Hne Hall t. rewrite report_true, elem_of_included.
    destruct (_include cliArgs options) as [|x l] eqn:Hl; [done|].
    replace (Js.some _ _) with false.
    + simpl. rewrite !elem_of_cons, elem_of_app, elem_of_defaultIssueTypes. tauto.
    + symmetry. apply not_true_iff_false.
      rewrite some_not_default_excluded. naive_solver.
  - intros x Hx Hnd t.
    rewrite report_true, (elem_of_included_requested _ _ _ _ Hx Hnd).
    naive_solver.
Qed.

End Taxonomy.

Import IssueExamples.

Ltac by_compute := apply (bool_decide_unpack _); vm_compute; exact I.

Ltac resolved :=
  eexists; split;
  [apply getIncludedIssueTypes_valid; by_compute
  |rewrite !report_lookup; by vm_compute].

(** The resolver asked for [dependencies] outside production mode, and
    in production mode. *)
Lemma resolve_dependencies_development :
  ∃ m,
    getIncludedIssueTypes named_issue_types (cli [] []) development = Ok m
    ∧ m !! "devDependencies" = Some true
    ∧ m !! "optionalPeerDependencies" = Some true.
Proof. resolved. Qed.

Lemma resolve_dependencies_production :
  ∃ m,
    getIncludedIssueTypes named_issue_types (cli [] []) production = Ok m
    ∧ m !! "devDependencies" = Some false.
Proof. resolved. Qed.

Lemma resolve_bogus :
  getIncludedIssueTypes named_issue_types include_bogus no_options
  = Throw (ConfigurationError "Invalid issue type: bogus").
Proof. by vm_compute. Qed.

(** C3 as stated fails: [dependencies] is in the resulting include
    set, production mode is off, and [devDependencies] is still
    [false], because it was excluded by name. *)
Lemma dependencies_included_dev_excluded :
  isProduction no_options = false
  ∧ "dependencies" ∈ _include include_deps_exclude_dev no_options
  ∧ "dependencies" ∈ included named_issue_types include_deps_exclude_dev no_options
  ∧ ∃ m,
      getIncludedIssueTypes named_issue_types include_deps_exclude_dev no_options = Ok m
      ∧ m !! "dependencies" = Some true
      ∧ m !! "devDependencies" = Some false
      ∧ m !! "devDependencies" ≠ Some true.
Proof.
  split; [done|]. split; [by_compute|]. split; [by_compute|]. resolved.
Qed.

(** C5 as stated fails: [classMembers] was asked for, yet the default
    set is not layered in, because [files] was asked for as well. *)
Lemma classMembers_with_files_no_defaults :
  "classMembers" ∈ _include include_classMembers_files no_options
  ∧ "classMembers" ∈ defaultExcludedIssueTypes
  ∧ is_default_type named_issue_types "exports"
  ∧ ∃ m,
      getIncludedIssueTypes named_issue_types include_classMembers_files no_options = Ok m
      ∧ m !! "classMembers" = Some true
      ∧ m !! "files" = Some true
      ∧ m !! "exports" = Some false
      ∧ m !! "exports" ≠ Some true.
Proof.
  split; [by_compute|]. split; [by_compute|].
  split; [split; [by_compute|done]|]. resolved.
Qed.

Lemma invalid_issue_type_rejected_witness :
  ("bogus" ∈ normalize (cli_include include_bogus)
   ∨ "bogus" ∈ normalize (cli_exclude include_bogus)
   ∨ "bogus" ∈ include no_options ∨ "bogus" ∈ exclude no_options)
  ∧ ("bogus" ∉ named_issue_types)
  ∧ ∃ valid bad rest,
      checked_types include_bogus no_options = valid ++ bad :: rest
      ∧ Forall (fun t => t ∈ named_issue_types) valid
      ∧ (bad ∉ named_issue_types)
      ∧ getIncludedIssueTypes named_issue_types include_bogus no_options
        = Throw (ConfigurationError ("Invalid issue type: " +:+ bad)).
Proof.
  assert ("bogus" ∈ normalize (cli_include include_bogus)) as Hin by by_compute.
  assert ("bogus" ∉ named_issue_types) as Hbad by by_compute.
  split; [by left|]. split; [done|].
  apply (invalid_issue_type_rejected named_issue_types include_bogus no_options "bogus");
    [by left|done].
Defined.

Lemma dependencies_pull_dev_dependencies_witness :
  Forall (fun t => t ∈ named_issue_types) (checked_types (cli [] []) development)
  ∧ "devDependencies" ∈ named_issue_types
  ∧ "optionalPeerDependencies" ∈ named_issue_types
  ∧ ∃ m,
      getIncludedIssueTypes named_issue_types (cli [] []) development = Ok m
      ∧ (isProduction development = true → m !! "devDependencies" = Some false)
      ∧ (isProduction development = false →
         "dependencies" ∈ _include (cli [] []) development →
         ∀ t, t = "devDependencies" ∨ t = "optionalPeerDependencies" →
           m !! t = Some true
           ↔ (t ∉ _exclude0 (cli [] []) development)
             ∧ ("dependencies" ∉ _exclude0 (cli [] []) development))
      ∧ (isProduction development = false →
         "dependencies" ∈ _exclude0 (cli [] []) development →
         m !! "devDependencies" = Some false
         ∧ m !! "optionalPeerDependencies" = Some false).
Proof.
  assert (Forall (fun t => t ∈ named_issue_types)
            (checked_types (cli [] []) development)) as Hvalid by by_compute.
  assert ("devDependencies" ∈ named_issue_types) as Hdev by by_compute.
  assert ("optionalPeerDependencies" ∈ named_issue_types) as Hopt by by_compute.
  split; [done|]. split; [done|]. split; [done|].
  exact (dependencies_pull_dev_dependencies named_issue_types (cli [] []) development
           Hvalid Hdev Hopt).
Defined.

Lemma default_issue_types_layered_witness :
  Forall (fun t => t ∈ named_issue_types)
    (checked_types (cli ["classMembers"] []) no_options)
  ∧ ∃ m,
      getIncludedIssueTypes named_issue_types (cli ["classMembers"] []) no_options = Ok m
      ∧ (_include (cli ["classMembers"] []) no_options = [] →
         ∀ t, m !! t = Some true
              ↔ is_default_type named_issue_types t
                ∧ (t ∉ _exclude (cli ["classMembers"] []) no_options))
      ∧ (_include (cli ["classMembers"] []) no_options ≠ [] →
         (∀ x, x ∈ _include (cli ["classMembers"] []) no_options →
               x ∈ defaultExcludedIssueTypes) →
         ∀ t, m !! t = Some true
              ↔ t ∈ named_issue_types
                ∧ (t ∈ _include (cli ["classMembers"] []) no_options
                   ∨ is_default_type named_issue_types t)
                ∧ (t ∉ _exclude (cli ["classMembers"] []) no_options))
      ∧ (∀ x, x ∈ _include (cli ["classMembers"] []) no_options →
              x ∉ defaultExcludedIssueTypes →
         ∀ t, m !! t = Some true
              ↔ t ∈ named_issue_types
                ∧ t ∈ _include (cli ["classMembers"] []) no_options
                ∧ (t ∉ _exclude (cli ["classMembers"] []) no_options)).
Proof.
  assert (Forall (fun t => t ∈ named_issue_types)
            (checked_types (cli ["classMembers"] []) no_options)) as Hvalid
    by by_compute.
  split; [done|].
  exact (default_issue_types_layered named_issue_types (cli ["classMembers"] [])
           no_options Hvalid).
Defined.

End IssueProps.

(** ** The dependents walk *)

Module WalkProps.
Import Workspaces.

Lemma elem_of_graph_targets (graph : Graph) dir dirs x :
  graph !! dir = Some dirs → x ∈ dirs → x ∈ graph_targets graph.
Proof.
  intros Hdir Hx. unfold graph_targets.
  apply elem_of_union_list. exists (list_to_set dirs). split.
  - apply list_elem_of_fmap. exists (dir, dirs). split; [done|].
    by apply elem_of_map_to_list.
  - by apply elem_of_list_to_set.
Qed.

Lemma elem_of_set_add x y s : x ∈ Js.set_add y s ↔ x = y ∨ x ∈ s.
Proof.
  unfold Js.set_add, Js.set_has. case_bool_decide.
  - split; [by right|]. by intros [->|].
  - rewrite elem_of_app, list_elem_of_singleton. tauto.
Qed.

Lemma NoDup_set_add y s : NoDup s → NoDup (Js.set_add y s).
Proof.
  intros Hs. unfold Js.set_add, Js.set_has. case_bool_decide; [done|].
  apply NoDup_app. split; [done|]. split; [|apply NoDup_singleton].
  intros x Hx ->%list_elem_of_singleton. done.
Qed.

Section Walk.

Variable graph : Graph.
Variable initialWorkspaces : list string.

(** What one walk leaves behind: [new] lists the directories it went
    on to after its start. *)
Record walk_from (dir : string) (st st' : WalkState) (new : list string) : Prop := {
  walk_calls : calls st' = calls st ++ dir :: new;
  walk_once : NoDup (dir :: new);
  walk_fresh : ∀ d, d ∈ new → d ∉ seen st;
  walk_seen : seen st' = {[dir]} ∪ seen st ∪ list_to_set new;
  walk_keeps : ∀ x, x ∈ workspaceDirsWithDependents st →
                    x ∈ workspaceDirsWithDependents st';
  walk_adds : ∀ dirs i, graph !! dir = Some dirs → i ∈ initialWorkspaces → i ∈ dirs →
                        dir ∈ workspaceDirsWithDependents st'
}.

(** The same for the loop over the entries of one node. *)
Record loop_from (st st' : WalkState) (new : list string) : Prop := {
  loop_calls : calls st' = calls st ++ new;
  loop_once : NoDup new;
  loop_fresh : ∀ d, d ∈ new → d ∉ seen st;
  loop_seen : seen st' = seen st ∪ list_to_set new;
  loop_keeps : ∀ x, x ∈ workspaceDirsWithDependents st →
                    x ∈ workspaceDirsWithDependents st'
}.

Abbreviation targets := (graph_targets graph).
Abbreviation walk := (addDependents graph initialWorkspaces).

Lemma unseen_shrinks (s : gset string) d :
  d ∈ targets → d ∉ s →
  size (targets ∖ ({[d]} ∪ s)) < size (targets ∖ s).
Proof. intros Hd Hs. apply subset_size. set_solver. Qed.

Lemma unseen_mono (s s' : gset string) :
  s ⊆ s' → size (targets ∖ s') ≤ size (targets ∖ s).
Proof. intros Hs. apply subseteq_size. set_solver. Qed.

(** The loop over the entries of a node, given that walks with the
    remaining fuel end. *)
Lemma each_unseen_ends fuel :
  (∀ dir st, size (targets ∖ ({[dir]} ∪ seen st)) < fuel →
             ∃ st' new, walk fuel dir st = Some st' ∧ walk_from dir st st' new) →
  ∀ dirs st,
    (∀ d, d ∈ dirs → d ∈ targets) →
    size (targets ∖ seen st) ≤ fuel →
    ∃ st' new, each_unseen (walk fuel) dirs st = Some st' ∧ loop_from st st' new.
Proof.
  intros IHfuel dirs.
  induction dirs as [|d rest IH]; intros st Hin Hsize; simpl.
  - exists st, []. split; [done|].
    split; [by rewrite app_nil_r | constructor | by intros d ?%elem_of_nil
           | set_solver | done].
  - assert (∀ d, d ∈ rest → d ∈ targets) as Hrest
        by (intros x Hx; apply Hin; by right).
    case_bool_decide as Hseen; [by apply IH|].
    destruct (IHfuel d st) as (st1 & new1 & -> & W).
    { pose proof (unseen_shrinks (seen st) d (Hin d ltac:(by left)) Hseen). lia. }
    destruct W as [Wc Wo Wf Ws Wk].
    destruct (IH st1 Hrest) as (st2 & new2 & -> & L).
    { etrans; [|exact Hsize]. apply unseen_mono. rewrite Ws. set_solver. }
    destruct L as [Lc Lo Lf Ls Lk].
    exists st2, (d :: new1 ++ new2). split; [done|]. split.
    + by rewrite Lc, Wc, <- app_assoc.
    + rewrite app_comm_cons. apply NoDup_app. split; [done|]. split; [|done].
      intros x Hx Hx2. apply (Lf x Hx2). rewrite Ws.
      apply elem_of_cons in Hx. set_solver.
    + intros x Hx. rewrite app_comm_cons in Hx.
      apply elem_of_app in Hx as [Hx|Hx].
      * apply elem_of_cons in Hx as [->|Hx]; [done|]. by apply Wf.
      * intros Hs. apply (Lf x Hx). rewrite Ws. set_solver.
    + rewrite Ls, Ws, app_comm_cons, list_to_set_app_L. set_solver.
    + auto.
Qed.

(** A walk ends whenever the fuel exceeds the number of directories
    it may still go on to. *)
Lemma addDependents_ends fuel :
  ∀ dir st,
    size (targets ∖ ({[dir]} ∪ seen st)) < fuel →
    ∃ st' new, walk fuel dir st = Some st' ∧ walk_from dir st st' new.
Proof.
  induction fuel as [|fuel IH]; intros dir st Hsize; [lia|].
  simpl.
  set (st1 := {| seen := {[dir]} ∪ seen st;
                 workspaceDirsWithDependents := workspaceDirsWithDependents st;
                 calls := calls st ++ [dir] |}).
  assert (∀ st', seen st' = seen st1 → calls st' = calls st1 →
            (∀ x, x ∈ workspaceDirsWithDependents st →
                  x ∈ workspaceDirsWithDependents st') →
            (∀ dirs i, graph !! dir = Some dirs → i ∈ initialWorkspaces →
                       i ∈ dirs → dir ∈ workspaceDirsWithDependents st') →
            walk_from dir st st' []) as W1.
  { intros st' Hs Hc Hk Ha.
    split; [by rewrite Hc | apply NoDup_singleton | by intros d ?%elem_of_nil
           | rewrite Hs; simpl; set_solver | done | done]. }
  destruct (graph !! dir) as [dirs|] eqn:Hdir;
    [|exists st1, []; split; [done|]; by apply W1].
  destruct (length dirs =? 0)%nat eqn:Hlen.
  { exists st1, []. split; [done|]. apply W1; try done.
    intros dirs' i [= <-] _ Hi. apply Nat.eqb_eq, nil_length_inv in Hlen.
    subst dirs. by apply elem_of_nil in Hi. }
  set (st2 := if Js.some _ _ then _ else st1).
  assert (seen st2 = seen st1 ∧ calls st2 = calls st1
          ∧ (∀ x, x ∈ workspaceDirsWithDependents st1 →
                  x ∈ workspaceDirsWithDependents st2)
          ∧ (∀ i, i ∈ initialWorkspaces → i ∈ dirs →
                  dir ∈ workspaceDirsWithDependents st2))
    as (Hs2 & Hc2 & Hk2 & Ha2).
  { unfold st2. destruct (Js.some _ _) eqn:Hsome; simpl.
    - repeat split.
      + intros x Hx. apply elem_of_set_add. by right.
      + intros _ _ _. apply elem_of_set_add. by left.
    - repeat split; [done|]. intros i Hi Hd.
      apply not_true_iff_false in Hsome. destruct Hsome.
      apply existsb_exists. exists i. split; [by apply list_elem_of_In|].
      by apply bool_decide_eq_true. }
  destruct (each_unseen_ends fuel IH dirs st2) as (st3 & new & -> & L).
  { intros d Hd. by eapply elem_of_graph_targets. }
  { rewrite Hs2. simpl. lia. }
  destruct L as [Lc Lo Lf Ls Lk].
  exists st3, new. split; [done|]. split.
  - rewrite Lc, Hc2. simpl. by rewrite <- app_assoc.
  - apply NoDup_cons. split; [|done].
    intros Hd. apply (Lf dir Hd). rewrite Hs2. simpl. set_solver.
  - intros d Hd Hseen. apply (Lf d Hd). rewrite Hs2. simpl. set_solver.
  - rewrite Ls, Hs2. done.
  - intros x Hx. apply Lk, Hk2. done.
  - intros dirs' i Hdirs' Hi Hd. rewrite Hdir in Hdirs'.
    injection Hdirs' as <-. by eapply Lk, Ha2.
Qed.

Lemma addDependents_enough_fuel fuel dir st :
  size targets < fuel →
  ∃ st' new, walk fuel dir st = Some st' ∧ walk_from dir st st' new.
Proof.
  intros Hfuel. apply addDependents_ends.
  pose proof (unseen_mono ∅ ({[dir]} ∪ seen st) ltac:(set_solver)) as Hle.
  rewrite difference_empty_L in Hle. lia.
Qed.

(** [forEach] over the available directories ends as well; what a
    walk added stays, and every directory of the list with an
    initial workspace among its entries gets added. *)
Lemma forEach_addDependents_ends fuel dirs st :
  size targets < fuel →
  ∃ st',
    forEach_addDependents graph initialWorkspaces fuel dirs st = Some st'
    ∧ (∀ x, x ∈ workspaceDirsWithDependents st →
            x ∈ workspaceDirsWithDependents st')
    ∧ (∀ dir entries i,
         dir ∈ dirs → graph !! dir = Some entries →
         i ∈ initialWorkspaces → i ∈ entries →
         dir ∈ workspaceDirsWithDependents st').
Proof.
  intros Hfuel. revert st.
  induction dirs as [|d rest IH]; intros st; simpl.
  - exists st. repeat split; [done|]. by intros ??? ?%elem_of_nil.
  - destruct (addDependents_enough_fuel fuel d st Hfuel) as (st1 & new & -> & W).
    destruct (IH st1) as (st2 & -> & Hkeep & Hadd).
    exists st2. repeat split.
    + intros x Hx. by apply Hkeep, (walk_keeps _ _ _ _ W).
    + intros dir entries i [->|Hin]%elem_of_cons Hdir Hi Hd.
      * by eapply Hkeep, (walk_adds _ _ _ _ W).
      * by eapply Hadd.
Qed.

End Walk.

(** Two packages that depend on each other: the walk from one enters
    both once and stops. *)
Lemma cyclic_walk_stops :
  size (graph_targets Monorepo.cyclic_graph) = 2
  ∧ calls <$> addDependents Monorepo.cyclic_graph [] 3 "/repo/packages/a" Monorepo.start
    = Some ["/repo/packages/a"; "/repo/packages/b"].
Proof. split; by vm_compute. Qed.

End WalkProps.

(** ** What the walk adds *)

Module WalkSound.
Import Workspaces WalkProps.

Section Walk.

Variable graph : Graph.
Variable initialWorkspaces : list string.

Abbreviation edge := (graph_edge graph).
Abbreviation has_entry := (has_initial_entry graph initialWorkspaces).
Abbreviation walk := (addDependents graph initialWorkspaces).

Abbreviation closed_except := (Workspaces.closed_except graph).
Abbreviation tested := (Workspaces.tested graph initialWorkspaces).
Abbreviation walk_sound := (Workspaces.walk_sound graph initialWorkspaces).

Lemma walk_sound_refl reach st : walk_sound reach st st.
Proof. split; auto. Qed.

Lemma walk_sound_trans (reach1 reach2 reach : string -> Prop) st1 st2 st3 :
  (∀ x, reach1 x → reach x) → (∀ x, reach2 x → reach x) →
  walk_sound reach1 st1 st2 → walk_sound reach2 st2 st3 → walk_sound reach st1 st3.
Proof.
  intros H1 H2 [S1 G1 A1 K1 T1 C1] [S2 G2 A2 K2 T2 C2]. split.
  - intros x Hx. destruct (S2 x Hx) as [Hx2|?]; [|right; auto].
    destruct (S1 x Hx2) as [?|?]; [by left|right; auto].
  - set_solver.
  - intros x Hx. destruct (A2 x Hx) as [Hx2|?]; [|by right].
    destruct (A1 x Hx2) as [?|[? ?]]; [by left|right]. split; [done|]. set_solver.
  - auto.
  - auto.
  - auto.
Qed.

Lemma each_unseen_sound (visit : string -> WalkState -> option WalkState) dir :
  (∀ d st st', visit d st = Some st' →
     walk_sound (rtc edge d) st st' ∧ d ∈ seen st') →
  ∀ dirs st st',
    (∀ d, d ∈ dirs → edge dir d) →
    each_unseen visit dirs st = Some st' →
    walk_sound (fun x => tc edge dir x) st st' ∧ ∀ d, d ∈ dirs → d ∈ seen st'.
Proof.
  intros Hvisit dirs. induction dirs as [|d rest IH]; intros st st' Hedges; simpl.
  - intros [= <-]. split; [apply walk_sound_refl|]. by intros ? ?%elem_of_nil.
  - assert (∀ d, d ∈ rest → edge dir d) as Hrest by (intros; apply Hedges; by right).
    case_bool_decide as Hseen.
    + intros Hrun. destruct (IH _ _ Hrest Hrun) as [Hsound Hall].
      split; [done|]. intros x [->|?]%elem_of_cons; [|by apply Hall].
      by apply (sound_grows _ _ _ _ _ Hsound).
    + destruct (visit d st) as [st1|] eqn:Hd; [|done].
      intros Hrun. destruct (Hvisit _ _ _ Hd) as [Hs1 Hd1].
      destruct (IH _ _ Hrest Hrun) as [Hs2 Hall]. split.
      * eapply (walk_sound_trans (rtc edge d)); [| |exact Hs1|exact Hs2]; [|done].
        intros x Hx. eapply tc_rtc_r; [|done]. apply tc_once, Hedges. by left.
      * intros x [->|?]%elem_of_cons; [|by apply Hall].
        by apply (sound_grows _ _ _ _ _ Hs2).
Qed.

Lemma addDependents_sound fuel :
  ∀ dir st st', walk fuel dir st = Some st' →
    walk_sound (rtc edge dir) st st' ∧ dir ∈ seen st'.
Proof.
  induction fuel as [|fuel IH]; intros dir st st'; simpl; [done|].
  set (st1 := {| seen := {[dir]} ∪ seen st;
                 workspaceDirsWithDependents := workspaceDirsWithDependents st;
                 calls := calls st ++ [dir] |}).
  assert (∀ entries, graph !! dir = Some entries → entries = [] →
            walk_sound (rtc edge dir) st st1 ∧ dir ∈ seen st1) as Hleaf.
  { intros entries Hentries ->. split; [|set_solver]. split; simpl.
    - intros x [->%elem_of_singleton|?]%elem_of_union; [by right|by left].
    - set_solver.
    - intros x Hx. by left.
    - done.
    - intros Htested x [->%elem_of_singleton|Hx]%elem_of_union; [|by apply Htested].
      intros (entries & i & Hdir & _ & Hi). rewrite Hentries in Hdir.
      injection Hdir as <-. by apply elem_of_nil in Hi.
    - intros pending Hclosed x y [->%elem_of_singleton|Hx]%elem_of_union Hp.
      + intros (entries & Hdir & Hy). rewrite Hentries in Hdir.
        injection Hdir as <-. by apply elem_of_nil in Hy.
      + intros He. apply elem_of_union. right. by apply (Hclosed x y). }
  destruct (graph !! dir) as [dirs|] eqn:Hdir.
  2:{ intros [= <-]. split; [|set_solver]. split; simpl.
      - intros x [->%elem_of_singleton|?]%elem_of_union; [by right|by left].
      - set_solver.
      - intros x Hx. by left.
      - done.
      - intros Htested x [->%elem_of_singleton|Hx]%elem_of_union; [|by apply Htested].
        intros (entries & i & Hdir' & _). by rewrite Hdir in Hdir'.
      - intros pending Hclosed x y [->%elem_of_singleton|Hx]%elem_of_union Hp.
        + intros (entries & Hdir' & _). by rewrite Hdir in Hdir'.
        + intros He. apply elem_of_union. right. by apply (Hclosed x y). }
  destruct (length dirs =? 0)%nat eqn:Hlen.
  { intros [= <-]. apply (Hleaf dirs); [done|].
    by apply Nat.eqb_eq, nil_length_inv in Hlen. }
  set (st2 := if Js.some _ _ then _ else st1).
  assert (seen st2 = {[dir]} ∪ seen st) as Hseen2 by (unfold st2; by destruct (Js.some _ _)).
  assert (∀ x, x ∈ workspaceDirsWithDependents st2 →
               x ∈ workspaceDirsWithDependents st ∨ (x = dir ∧ has_entry dir)) as Hadded2.
  { unfold st2. destruct (Js.some _ _) eqn:Hsome; simpl; [|by left].
    intros x [->|?]%elem_of_set_add; [right|by left]. split; [done|].
    apply existsb_exists in Hsome as (i & Hi & Hd).
    exists dirs, i. split; [done|]. split; [by apply list_elem_of_In|].
    by apply bool_decide_eq_true in Hd. }
  assert (∀ x, x ∈ workspaceDirsWithDependents st →
               x ∈ workspaceDirsWithDependents st2) as Hkeep2.
  { unfold st2. destruct (Js.some _ _); simpl; [|done].
    intros x Hx. apply elem_of_set_add. by right. }
  assert (has_entry dir → dir ∈ workspaceDirsWithDependents st2) as Hdir2.
  { intros (entries & i & Hdir' & Hi & Hd). rewrite Hdir in Hdir'.
    injection Hdir' as <-. unfold st2.
    replace (Js.some _ _) with true; [simpl; apply elem_of_set_add; by left|].
    symmetry. apply existsb_exists. exists i. split; [by apply list_elem_of_In|].
    by apply bool_decide_eq_true. }
  intros Hrun.
  destruct (each_unseen_sound _ dir IH dirs st2 st' ltac:(by intros d Hd; exists dirs) Hrun)
    as [[S G A K T C] Hall].
  split; [|apply G; rewrite Hseen2; set_solver]. split.
  - intros x Hx. destruct (S x Hx) as [Hx2|Hx2].
    + rewrite Hseen2 in Hx2.
      apply elem_of_union in Hx2 as [->%elem_of_singleton|?]; [by right|by left].
    + right. by apply tc_rtc.
  - rewrite Hseen2 in G. set_solver.
  - intros x Hx. destruct (A x Hx) as [Hx2|?]; [|by right].
    destruct (Hadded2 x Hx2) as [?|[-> ?]]; [by left|right]. split; [done|].
    apply G. rewrite Hseen2. set_solver.
  - auto.
  - intros Htested. apply T. intros x Hx Hentry. rewrite Hseen2 in Hx.
    apply elem_of_union in Hx as [->%elem_of_singleton|Hx]; [by apply Hdir2|].
    by apply Hkeep2, Htested.
  - intros pending Hclosed x y Hx Hp He.
    destruct (decide (x = dir)) as [->|Hne].
    + destruct He as (entries & Hdir' & Hy). rewrite Hdir in Hdir'.
      injection Hdir' as <-. by apply Hall.
    + apply (C (pending ∪ {[dir]})) with x; [|done|set_solver|done].
      intros x' y' Hx' Hp' He'. rewrite Hseen2 in *.
      apply elem_of_union. right. apply (Hclosed x' y'); [set_solver|set_solver|done].
Qed.

Lemma forEach_addDependents_sound fuel dirs :
  ∀ st st', forEach_addDependents graph initialWorkspaces fuel dirs st = Some st' →
    walk_sound (reached graph dirs) st st' ∧ ∀ d, d ∈ dirs → d ∈ seen st'.
Proof.
  induction dirs as [|d rest IH]; intros st st'; simpl.
  - intros [= <-]. split; [apply walk_sound_refl|]. by intros ? ?%elem_of_nil.
  - destruct (walk fuel d st) as [st1|] eqn:Hd; [|done].
    intros Hrun. destruct (addDependents_sound _ _ _ _ Hd) as [Hs1 Hd1].
    destruct (IH _ _ Hrun) as [Hs2 Hall]. split.
    + eapply (walk_sound_trans (rtc edge d) (reached graph rest));
        [| |exact Hs1|exact Hs2].
      * intros x Hx. exists d. split; [by left|done].
      * intros x (s & Hs & Hx). exists s. split; [by right|done].
    + intros x [->|?]%elem_of_cons; [|by apply Hall].
      by apply (sound_grows _ _ _ _ _ Hs2).
Qed.

(** After [forEach] from a fresh [seen] set, the added directories are
    exactly those reached from the start directories that have an
    initial workspace among their entries. *)
Lemma forEach_addDependents_exact fuel dirs already st' :
  forEach_addDependents graph initialWorkspaces fuel dirs
    {| seen := ∅; workspaceDirsWithDependents := already; calls := [] |} = Some st' →
  ∀ x, x ∈ workspaceDirsWithDependents st'
       ↔ x ∈ already ∨ (reached graph dirs x ∧ has_entry x).
Proof.
  intros Hrun.
  destruct (forEach_addDependents_sound _ _ _ _ Hrun) as [[S G A K T C] Hall].
  simpl in *.
  assert (∀ x, reached graph dirs x → x ∈ seen st') as Hreached.
  { assert (closed_except ∅ (seen st')) as Hclosed
      by (apply C; by intros ? ? ?%elem_of_empty).
    assert (∀ a b, rtc edge a b → a ∈ seen st' → b ∈ seen st') as Hrtc.
    { intros a b Hab. induction Hab as [a|a b c Hab _ IH]; [done|].
      intros Ha. apply IH. apply (Hclosed a b); [done|set_solver|done]. }
    intros x (s & Hs & Hx). apply (Hrtc s x Hx). by apply Hall. }
  intros x. split.
  - intros Hx. destruct (A x Hx) as [?|[Hentry Hseen]]; [by left|right].
    split; [|done]. by destruct (S x Hseen) as [?%elem_of_empty|?].
  - intros [Hx|[Hx Hentry]]; [by apply K|].
    apply T; [|by apply Hreached|done]. by intros ? ?%elem_of_empty.
Qed.

Abbreviation targets := (graph_targets graph).

(** The log of [forEach]: each start followed by the directories its
    walk went on to; those are new to the [seen] set and pairwise
    distinct over the whole loop. *)
Lemma forEach_addDependents_log fuel dirs st :
  size targets < fuel →
  ∃ st' news,
    forEach_addDependents graph initialWorkspaces fuel dirs st = Some st'
    ∧ length news = length dirs
    ∧ calls st' = calls st ++ concat (zip_with cons dirs news)
    ∧ NoDup (concat news)
    ∧ Forall (fun x => x ∉ seen st) (concat news)
    ∧ seen st' = seen st ∪ list_to_set dirs ∪ list_to_set (concat news).
Proof.
  intros Hfuel. revert st.
  induction dirs as [|d rest IH]; intros st; simpl.
  - exists st, []. simpl. rewrite app_nil_r.
    repeat split; [constructor|constructor|set_solver].
  - destruct (addDependents_enough_fuel graph initialWorkspaces fuel d st Hfuel)
      as (st1 & new & -> & [Wc Wo Wf Ws Wk Wa]).
    destruct (IH st1) as (st2 & news & -> & Hlen & Hcalls & Hnd & Hfresh & Hseen).
    pose proof (proj1 (Forall_forall _ _) Hfresh) as Hfresh'.
    exists st2, (new :: news). simpl. split; [done|]. split; [by rewrite Hlen|].
    split; [by rewrite Hcalls, Wc, <- app_assoc|].
    split; [|split].
    + apply NoDup_app. split; [by apply NoDup_cons in Wo as [_ ?]|]. split; [|done].
      intros x Hx Hx2. apply (Hfresh' x Hx2). rewrite Ws. set_solver.
    + apply Forall_app. split.
      * apply Forall_forall. intros x Hx. by apply Wf.
      * apply Forall_forall. intros x Hx Hs. apply (Hfresh' x Hx). rewrite Ws. set_solver.
    + rewrite Hseen, Ws, list_to_set_app_L. set_solver.
Qed.

End Walk.

(** No edge of the two example graphs leads back: each goes down in
    [chain_rank]. *)
Lemma chain_graph_acyclic x : ¬ tc (graph_edge Monorepo.chain_graph) x x.
Proof.
  assert (∀ a b, graph_edge Monorepo.chain_graph a b →
                 Monorepo.chain_rank b < Monorepo.chain_rank a) as Hedge.
  { intros a b (entries & Ha & Hb). unfold Monorepo.chain_graph in Ha.
    repeat (apply lookup_insert_Some in Ha as [[<- <-]|[_ Ha]];
            [repeat (apply elem_of_cons in Hb as [->|Hb]; [vm_compute; lia|]);
             by apply elem_of_nil in Hb|]).
    apply lookup_singleton_Some in Ha as [<- <-].
    repeat (apply elem_of_cons in Hb as [->|Hb]; [vm_compute; lia|]).
    by apply elem_of_nil in Hb. }
  assert (∀ a b, tc (graph_edge Monorepo.chain_graph) a b →
                 Monorepo.chain_rank b < Monorepo.chain_rank a) as Htc.
  { intros a b Hab. induction Hab as [a b Hab|a b c Hab _ IH]; [by apply Hedge|].
    apply Hedge in Hab. lia. }
  intros Hx%Htc. lia.
Qed.

Lemma graph_acyclic x : ¬ tc (graph_edge Monorepo.graph) x x.
Proof.
  assert (∀ a b, graph_edge Monorepo.graph a b →
                 Monorepo.chain_rank b < Monorepo.chain_rank a) as Hedge.
  { intros a b (entries & Ha & Hb). unfold Monorepo.graph in Ha.
    repeat (apply lookup_insert_Some in Ha as [[<- <-]|[_ Ha]];
            [repeat (apply elem_of_cons in Hb as [->|Hb]; [vm_compute; lia|]);
             by apply elem_of_nil in Hb|]).
    apply lookup_singleton_Some in Ha as [<- <-].
    repeat (apply elem_of_cons in Hb as [->|Hb]; [vm_compute; lia|]).
    by apply elem_of_nil in Hb. }
  assert (∀ a b, tc (graph_edge Monorepo.graph) a b →
                 Monorepo.chain_rank b < Monorepo.chain_rank a) as Htc.
  { intros a b Hab. induction Hab as [a b Hab|a b c Hab _ IH]; [by apply Hedge|].
    apply Hedge in Hab. lia. }
  intros Hx%Htc. lia.
Qed.



End WalkSound.

(** ** Package discovery and scope resolution *)

Module ChiefProps.
Import Workspaces WalkProps WalkSound.

(** *** Sets and maps *)

Lemma set_has_nil x : Js.set_has x [] = false.
Proof. apply bool_decide_eq_false_2, not_elem_of_nil. Qed.

Lemma elem_of_fold_set_add {A} (f : A -> string) l acc x :
  x ∈ fold_left (fun ws d => Js.set_add (f d) ws) l acc
  ↔ x ∈ acc ∨ ∃ d, d ∈ l ∧ x = f d.
Proof.
  revert acc. induction l as [|d l IH]; intros acc; simpl.
  - split; [by left|]. intros [?|(d & Hd%elem_of_nil & _)]; done.
  - rewrite IH, elem_of_set_add. setoid_rewrite elem_of_cons. naive_solver.
Qed.

Lemma elem_of_set_of_array a x : x ∈ Js.set_of_array a ↔ x ∈ a.
Proof.
  unfold Js.set_of_array.
  rewrite (elem_of_fold_set_add (fun x => x)), elem_of_nil. naive_solver.
Qed.

Lemma sort_insert_perm cmp x l : Js.sort_insert cmp x l ≡ₚ x :: l.
Proof.
  induction l as [|y l IH]; simpl; [done|].
  destruct (0 <? cmp x y)%Z; [|done].
  rewrite IH. apply Permutation_swap.
Qed.

(** Sorting rearranges and neither drops nor adds. *)
Lemma sort_perm cmp l : Js.sort cmp l ≡ₚ l.
Proof.
  unfold Js.sort. induction l as [|x l IH]; simpl; [done|].
  by rewrite sort_insert_perm, IH.
Qed.

Lemma elem_of_sort cmp l x : x ∈ Js.sort cmp l ↔ x ∈ l.
Proof. by rewrite sort_perm. Qed.

Lemma keys_set {V} k (v : V) m :
  JsMap.keys (JsMap.set k v m)
  = if bool_decide (k ∈ JsMap.keys m) then JsMap.keys m else JsMap.keys m ++ [k].
Proof.
  unfold JsMap.keys. induction m as [|[k' v'] m IH]; [done|].
  cbn [JsMap.set]. destruct (String.eqb k' k) eqn:Hk.
  - apply String.eqb_eq in Hk as ->. rewrite !fmap_cons. cbn [fst].
    rewrite bool_decide_eq_true_2; [done|by left].
  - apply String.eqb_neq in Hk. rewrite !fmap_cons, IH. cbn [fst].
    destruct (decide (k ∈ m.*1)) as [Hin|Hnin].
    + rewrite !bool_decide_eq_true_2; [done|by right|done].
    + rewrite !bool_decide_eq_false_2; [done| |done].
      intros [->|?]%elem_of_cons; done.
Qed.

(** A key never occurs twice in a map. *)
Lemma keys_set_NoDup {V} k (v : V) m :
  NoDup (JsMap.keys m) → NoDup (JsMap.keys (JsMap.set k v m)).
Proof.
  intros Hm. rewrite keys_set. case_bool_decide as Hk; [done|].
  apply NoDup_app. split; [done|]. split; [|apply NoDup_singleton].
  by intros x Hx ->%list_elem_of_singleton.
Qed.

Section Chief.

Variable ROOT_WORKSPACE_NAME : string.
Variable join : string -> string -> string.
Variable relative : string -> string -> string.
Variable existsSync : string -> bool.
Variable byPathDepth : string -> string -> Z.
Variable isMatch : string -> list string -> bool.
Variable fastGlob : string -> list string -> list string -> list string.
Variable _require : string -> result PackageJson.
Variable getPackageName : PackageJson -> string -> option string.
Variable WorkspaceConfiguration : Type.
Variable IgnorePatterns : Type.
Variable getConfigForWorkspace : string -> WorkspaceConfiguration.
Variable getIgnoreMembers : string -> IgnorePatterns.

#[local] Set Default Proof Using "Type".

Abbreviation Chief := (ConfigurationChief WorkspaceConfiguration IgnorePatterns).
Abbreviation determine :=
  (determineIncludedWorkspaces ROOT_WORKSPACE_NAME join relative existsSync
     byPathDepth WorkspaceConfiguration IgnorePatterns
     getConfigForWorkspace getIgnoreMembers).
Abbreviation names_of :=
  (included_names ROOT_WORKSPACE_NAME join relative
     WorkspaceConfiguration IgnorePatterns).
Abbreviation to_workspace :=
  (toWorkspace ROOT_WORKSPACE_NAME join WorkspaceConfiguration IgnorePatterns
     getConfigForWorkspace getIgnoreMembers).
Abbreviation ancestors_of := (getAncestors ROOT_WORKSPACE_NAME).
Abbreviation pkg_names :=
  (getAvailableWorkspacePkgNames isMatch WorkspaceConfiguration IgnorePatterns).
Abbreviation map_workspaces :=
  (mapWorkspaces join fastGlob _require getPackageName).

Lemma selector_truthy w : w ≠ "" → selector (Some w) = Some w.
Proof.
  intros Hw. unfold selector.
  by destruct (String.eqb_spec w "").
Qed.

Lemma ws_name_to_workspace (c : Chief) names :
  ws_name _ _ <$> (map (to_workspace c) names) = names.
Proof. induction names as [|n names IH]; simpl; [done|]. by f_equal. Qed.

(** The names of the resolved workspaces are the names in [ws]. *)
Lemma elem_of_resolved_names (c : Chief) ws x :
  x ∈ ws_name _ _ <$> map (to_workspace c) (Js.sort byPathDepth ws) ↔ x ∈ ws.
Proof. by rewrite ws_name_to_workspace, elem_of_sort. Qed.

Lemma elem_of_fold_getAncestors name l acc x :
  x ∈ fold_left (ancestors_of name) l acc
  ↔ x ∈ acc
    ∨ (x ∈ l ∧ x ≠ name
       ∧ (x = ROOT_WORKSPACE_NAME ∨ Js.startsWith name (x +:+ "/") = true)).
Proof.
  clear - ROOT_WORKSPACE_NAME.
  revert acc. induction l as [|a l IH]; intros acc; simpl.
  - split; [by left|]. intros [?|[?%elem_of_nil _]]; done.
  - rewrite IH. unfold getAncestors.
    destruct (String.eqb_spec name a) as [->|Hne].
    { rewrite elem_of_cons. tauto. }
    destruct (String.eqb_spec a ROOT_WORKSPACE_NAME) as [->|Hroot]; simpl.
    { rewrite elem_of_app, list_elem_of_singleton, elem_of_cons.
      intuition (subst; auto). }
    destruct (Js.startsWith name (a +:+ "/")) eqn:Hpre.
    { rewrite elem_of_app, list_elem_of_singleton, elem_of_cons.
      intuition (subst; auto). }
    rewrite elem_of_cons. split.
    + intros [?|(? & ? & ?)]; [by left|right]. split; [by right|done].
    + intros [?|(Hx & Hn & Hr)]; [by left|].
      destruct Hx as [->|Hx]; [|by right].
      destruct Hr as [?|Hr]; [done|congruence].
Qed.

(** *** The duplicate check *)

Lemma pkg_names_loop_ok (c : Chief) pkgNames names :
  NoDup pkgNames → (∀ x, x ∈ pkgNames → x ∉ names) →
  ∃ r, getAvailableWorkspacePkgNames_loop isMatch _ _ c pkgNames names = Ok r.
Proof.
  revert names.
  induction pkgNames as [|p rest IH]; intros names Hnd Hfresh; simpl; [by eexists|].
  apply NoDup_cons in Hnd as [Hp Hnd].
  unfold Js.set_has at 1.
  rewrite bool_decide_eq_false_2 by (apply Hfresh; by left).
  apply IH; [done|].
  intros x Hx. destruct (negb _).
  - rewrite elem_of_set_add. intros [->|Hin]; [done|].
    by apply (Hfresh x); [right|].
  - apply Hfresh. by right.
Qed.

(** The keys of a map are pairwise distinct, so the loop of
    [getAvailableWorkspacePkgNames] never meets a name twice. *)
Lemma pkg_names_of_keys_ok (c : Chief) (m : JsMap.t Package) :
  NoDup (JsMap.keys m) → ∃ r, pkg_names c (JsMap.keys m) = Ok r.
Proof.
  intros Hnd. apply pkg_names_loop_ok; [done|].
  intros x _. apply not_elem_of_nil.
Qed.

Lemma mapWorkspaces_loop_NoDup cwd matches acc byName byPkgName :
  NoDup (JsMap.keys acc.1) → NoDup (JsMap.keys acc.2) →
  mapWorkspaces_loop join _require getPackageName cwd matches acc
  = Ok (byName, byPkgName) →
  NoDup (JsMap.keys byName) ∧ NoDup (JsMap.keys byPkgName).
Proof.
  revert acc. induction matches as [|name rest IH]; intros [a b] Ha Hb; simpl.
  - by intros [= <- <-].
  - destruct (_require _) as [manifest|e]; simpl.
    + destruct (getPackageName _ _) as [n|]; [|done].
      destruct (String.eqb n ""); [done|]. simpl.
      apply IH; simpl; by apply keys_set_NoDup.
    + destruct e; try done. simpl. by apply IH.
Qed.

Lemma mapWorkspaces_NoDup cwd workspaces byName byPkgName :
  map_workspaces cwd workspaces = Ok (byName, byPkgName) →
  NoDup (JsMap.keys byName) ∧ NoDup (JsMap.keys byPkgName).
Proof.
  unfold mapWorkspaces. destruct (partition _ _) as [negated patterns].
  destruct (_ && _).
  - intros [= <- <-]. split; constructor.
  - apply mapWorkspaces_loop_NoDup; constructor.
Qed.

(** Whatever [mapWorkspaces] found, and with the root package added,
    [getAvailableWorkspacePkgNames] returns: the branch that throws
    [Duplicate package name] cannot be reached from [setWorkspaces]. *)
Lemma duplicate_check_unreachable (c : Chief) byName byPkgName :
  map_workspaces (cwd _ _ c) (getListedWorkspaces _ _ c) = Ok (byName, byPkgName) →
  ∀ c' : Chief,
    ∃ r, pkg_names c'
           (JsMap.keys
              (workspacePackagesByName _ _
                 (addRootPackage ROOT_WORKSPACE_NAME _ _
                    (set_workspacePackagesByName _ _ byPkgName
                       (set_workspacePackages _ _ byName c))))) = Ok r.
Proof.
  intros Hmap c'. apply mapWorkspaces_NoDup in Hmap as [_ Hnd].
  apply pkg_names_of_keys_ok.
  unfold addRootPackage. simpl.
  destruct (manifest _ _ c); simpl; [|done].
  by apply keys_set_NoDup.
Qed.

(** *** Scope resolution *)



End Chief.

(** The scope of the example repository: everything without a
    selector, and the three modes with [packages/a] selected. *)
Lemma monorepo_resolves :
  ∃ c, Monorepo.setWorkspaces "a" "b" (Some "packages/a") 2 (Monorepo.chief false)
       = Some (Ok c)
       ∧ ws_name _ _ <$> getIncludedWorkspaces _ _ c = ["."; "packages/a"; "packages/b"]
       ∧ packageGraph _ _ c = Some Monorepo.graph.
Proof. eexists. split; [by vm_compute|]. by vm_compute. Qed.

(** C4, on the code. [packages/a] and [packages/b] both declare the
    name [dup]: [setWorkspaces] raises nothing; the second package
    replaces the first under that name and scope resolution goes on. *)
Theorem duplicate_package_name_accepted :
  ∃ c, Monorepo.setWorkspaces "dup" "dup" None 2 (Monorepo.chief false) = Some (Ok c)
       ∧ JsMap.keys (workspacePackages _ _ c) = ["packages/a"; "packages/b"; "."]
       ∧ (pkg_pkgName <$> (workspacePackages _ _ c).*2)
         = [Some "dup"; Some "dup"; Some "root"]
       ∧ (pkg_dir <$> JsMap.get "dup" (workspacePackagesByName _ _ c))
         = Some "/repo/packages/b"
       ∧ availableWorkspacePkgNames _ _ c = ["dup"; "root"]
       ∧ ws_name _ _ <$> getIncludedWorkspaces _ _ c = ["."; "packages/b"; "packages/a"].
Proof. eexists. split; [by vm_compute|]. by vm_compute. Qed.


Abbreviation m_determine :=
  (determineIncludedWorkspaces Monorepo.ROOT_WORKSPACE_NAME Monorepo.join
     Monorepo.relative Monorepo.existsSync Monorepo.byPathDepth unit unit
     Monorepo.getConfigForWorkspace Monorepo.getIgnoreMembers).



End ChiefProps.

(** * Further properties of the modelled code *)

(** ** Tags *)

Module TagMore.
Import Tag TagProps.

Lemma first_letter_run_letters token m :
  first_letter_run token m → m ≠ "" ∧ all_chars Js.is_letter m = true.
Proof. intros (pre & post & _ & _ & Hne & Hall & _). done. Qed.

Lemma match_letters_letters token m :
  Js.match_letters token = Some m → m ≠ "" ∧ all_chars Js.is_letter m = true.
Proof.
  intros Hm. pose proof (match_letters_spec token) as Hspec.
  rewrite Hm in Hspec. by eapply first_letter_run_letters.
Qed.

(** Whatever the input, every tag that [splitTags] returns is a
    non-empty string of ASCII letters, and there is at most one tag per
    comma-separated token. *)
Theorem splitTags_alphabetic (tags : list string) :
  Forall (fun t => t ≠ "" ∧ all_chars Js.is_letter t = true)
    ((splitTags tags).1 ++ (splitTags tags).2)
  ∧ length (splitTags tags).1 + length (splitTags tags).2
    ≤ length (Js.flatMap (Js.split ",") tags).
Proof.
  rewrite splitTags_tokens. simpl.
  generalize (Js.flatMap (Js.split ",") tags) as tokens. intros tokens. split.
  - apply Forall_app. split; apply Forall_forall; intros t Ht;
      apply list_elem_of_omap in Ht as (token & _ & Hf);
      destruct (Js.startsWith token "-"); try done;
      by eapply match_letters_letters.
  - unfold included_tokens, excluded_tokens.
    induction tokens as [|t tokens IH]; simpl; [done|].
    unfold omap in *. destruct (Js.startsWith t "-"), (Js.match_letters t); simpl in *; lia.
Qed.

(** [splitTags] works input by input: the result for a concatenation is
    the concatenation of the results. *)
Theorem splitTags_app (tags1 tags2 : list string) :
  splitTags (tags1 ++ tags2)
  = ((splitTags tags1).1 ++ (splitTags tags2).1,
     (splitTags tags1).2 ++ (splitTags tags2).2).
Proof.
  rewrite !splitTags_tokens. simpl.
  unfold Js.flatMap, included_tokens, excluded_tokens.
  by rewrite flat_map_app, !omap_app.
Qed.

(** A symbol that carries an excluded tag is ignored whatever the
    include list says, also when it carries an included tag as well. *)
Theorem excluded_tag_wins (jsDocTags : JsDocTags) (includeTags excludeTags : list string)
    (t : string) :
  t ∈ excludeTags → tag_member ("@" +:+ t) jsDocTags →
  shouldIgnore jsDocTags (includeTags, excludeTags) = true.
Proof.
  intros Hin Hmem. rewrite shouldIgnore_bool.
  apply orb_true_iff. right. apply andb_true_iff. split.
  - apply length_pos_nonempty. by intros ->; apply elem_of_nil in Hin.
  - apply hasTag_true. exists t. split; [done|]. by apply tag_member_as_set.
Qed.

Lemma excluded_tag_wins_witness :
  "internal" ∈ ["internal"]
  ∧ tag_member ("@" +:+ "internal") (TagArray ["@public"; "@internal"])
  ∧ shouldIgnore (TagArray ["@public"; "@internal"]) (["public"], ["internal"]) = true.
Proof.
  assert ("internal" ∈ ["internal"]) as Hin
    by (apply (bool_decide_unpack _); vm_compute; exact I).
  assert (tag_member ("@" +:+ "internal") (TagArray ["@public"; "@internal"])) as Hmem
    by (simpl; apply (bool_decide_unpack _); vm_compute; exact I).
  split; [done|]. split; [done|].
  exact (excluded_tag_wins (TagArray ["@public"; "@internal"]) ["public"] ["internal"]
           "internal" Hin Hmem).
Defined.

(** A symbol without any tag is ignored exactly when an include list is
    configured; exclude lists never touch it. *)
Theorem untagged_ignored_iff_include (includeTags excludeTags : list string) :
  shouldIgnore (TagSet ∅) (includeTags, excludeTags) = (0 <? length includeTags)%nat
  ∧ shouldIgnore (TagArray []) (includeTags, excludeTags) = (0 <? length includeTags)%nat.
Proof.
  assert (∀ tags, hasTag tags (∅ : gset string) = false) as Hnone.
  { intros tags. apply hasTag_false. intros t _. apply not_elem_of_empty. }
  split; rewrite shouldIgnore_bool; simpl; rewrite !Hnone;
    by destruct (0 <? length includeTags)%nat, (0 <? length excludeTags)%nat.
Qed.

End TagMore.

(** ** Issue types *)

Module IssueMore.
Import IssueTypes IssueProps IssueExamples TagProps.

Lemma split_nonempty sep s : Js.split sep s ≠ [].
Proof.
  destruct s as [|c rest]; simpl; [done|].
  destruct (Ascii.eqb c sep); [done|]. by destruct (Js.split sep rest).
Qed.

Lemma concat_split sep s : String.concat (String sep "") (Js.split sep s) = s.
Proof.
  induction s as [|c rest IH]; simpl; [done|].
  destruct (Ascii.eqb_spec c sep) as [->|Hne].
  - pose proof (split_nonempty sep rest) as Hne.
    destruct (Js.split sep rest) as [|hd tl] eqn:Hsplit; [done|].
    change (String.concat (String sep "") ("" :: hd :: tl))
      with ("" +:+ String sep "" +:+ String.concat (String sep "") (hd :: tl)).
    by rewrite IH.
  - destruct (Js.split sep rest) as [|hd [|hd' tl]] eqn:Hsplit.
    + by apply split_nonempty in Hsplit.
    + simpl in *. by rewrite IH.
    + change (String c hd +:+ String sep "" +:+ String.concat (String sep "") (hd' :: tl)
              = String c rest).
      rewrite append_cons. f_equal. exact IH.
Qed.

Lemma split_no_sep sep s :
  Forall (fun token => Js.has_char sep token = false) (Js.split sep s).
Proof.
  induction s as [|c rest IH]; simpl; [by repeat constructor|].
  destruct (Ascii.eqb c sep) eqn:Hc; [by constructor|].
  destruct (Js.split sep rest) as [|hd tl].
  - repeat constructor. simpl. by rewrite Hc.
  - apply Forall_cons in IH as [Hhd Htl]. constructor; [|done].
    simpl. by rewrite Hc.
Qed.

Lemma append_assoc (a b c : string) : (a +:+ b) +:+ c = a +:+ b +:+ c.
Proof. induction a as [|x a IH]; [done|]. by rewrite !append_cons, IH. Qed.

Lemma concat_app sep l1 l2 :
  l1 ≠ [] → l2 ≠ [] →
  String.concat sep (l1 ++ l2) = String.concat sep l1 +:+ sep +:+ String.concat sep l2.
Proof.
  intros H1 H2. induction l1 as [|x [|y l1] IH]; [done| |].
  - destruct l2; done.
  - change (x +:+ sep +:+ String.concat sep ((y :: l1) ++ l2)
            = (x +:+ sep +:+ String.concat sep (y :: l1))
              +:+ sep +:+ String.concat sep l2).
    rewrite IH by done. by rewrite !append_assoc.
Qed.

(** Splitting the CLI values on commas loses nothing: joining the
    tokens of [normalize] with commas gives the values joined with
    commas, and no token holds a comma. *)
Theorem normalize_round_trip (values : list string) :
  String.concat "," (normalize values) = String.concat "," values
  ∧ Forall (fun token => Js.has_char "," token = false) (normalize values)
  ∧ length values ≤ length (normalize values).
Proof.
  unfold normalize, Js.flatMap. split; [|split].
  - induction values as [|v values IH]; [done|].
    simpl flat_map. destruct values as [|v' values].
    + simpl. rewrite app_nil_r. apply concat_split.
    + rewrite concat_app.
      * rewrite IH, concat_split. done.
      * apply split_nonempty.
      * simpl. intros Hnil. apply app_eq_nil in Hnil as [Hnil _].
        by apply split_nonempty in Hnil.
  - induction values as [|v values IH]; simpl; [constructor|].
    apply Forall_app. split; [apply split_no_sep|done].
  - induction values as [|v values IH]; simpl; [done|].
    rewrite length_app. pose proof (split_nonempty "," v).
    destruct (Js.split "," v); [done|]. simpl. lia.
Qed.

Section Taxonomy.

Variable ISSUE_TYPES : list string.

(** The returned map has one entry for each type of the taxonomy and
    no other key, whatever was asked for. *)
Theorem report_covers_taxonomy cliArgs options :
  dom (report ISSUE_TYPES cliArgs options) = list_to_set ISSUE_TYPES.
Proof.
  apply set_eq. intros t.
  rewrite elem_of_dom, elem_of_list_to_set, report_lookup.
  case_bool_decide; split; try done; by intros [? [=]].
Qed.

Lemma valid_elem cliArgs options t :
  Forall (fun t => t ∈ ISSUE_TYPES) (checked_types cliArgs options) →
  t ∈ checked_types cliArgs options → t ∈ ISSUE_TYPES.
Proof. intros Hvalid Hin. by apply (proj1 (Forall_forall _ _) Hvalid). Qed.

Lemma exclude0_in_exclude cliArgs options t :
  t ∈ _exclude0 cliArgs options → t ∈ _exclude cliArgs options.
Proof.
  intros Hin. unfold _exclude.
  destruct (isProduction options); [apply elem_of_app; by left|].
  destruct (Js.includes _ _); [apply elem_of_app; by left|done].
Qed.

Lemma exclude_only_adds_dev cliArgs options t :
  t ∈ _exclude cliArgs options →
  t ∈ _exclude0 cliArgs options ∨ t = "devDependencies" ∨ t = "optionalPeerDependencies".
Proof.
  unfold _exclude. destruct (isProduction options).
  - rewrite elem_of_app, list_elem_of_singleton. tauto.
  - destruct (Js.includes _ _); [|tauto].
    rewrite elem_of_app, !elem_of_cons, elem_of_nil. tauto.
Qed.

Lemma include0_in_include cliArgs options t :
  t ∈ _include0 cliArgs options → t ∈ _include cliArgs options.
Proof.
  intros Hin. unfold _include.
  destruct (isProduction options); [done|].
  destruct (Js.includes _ _); [apply elem_of_app; by left|done].
Qed.

Lemma incl0_in_incl cliArgs t : t ∈ incl0 cliArgs → t ∈ incl cliArgs.
Proof.
  intros Hin. unfold incl.
  destruct (cli_dependencies cliArgs), (cli_exports cliArgs), (cli_files cliArgs);
    rewrite ?elem_of_app; tauto.
Qed.

Lemma requested_in_base cliArgs options t :
  t ∈ _include cliArgs options →
  t ∈ (if (0 <? length (_include cliArgs options))%nat
       then if Js.some (fun type => negb (Js.includes defaultExcludedIssueTypes type))
                 (_include cliArgs options)
            then _include cliArgs options
            else _include cliArgs options ++ defaultIssueTypes ISSUE_TYPES
       else defaultIssueTypes ISSUE_TYPES).
Proof.
  intros Hin. rewrite (include_nonempty _ _ Hin).
  destruct (Js.some _ _); [done|]. apply elem_of_app. by left.
Qed.

(** A type excluded on the command line is [false] in the map, whatever
    the include lists, the convenience flags and the mode say. *)
Theorem cli_exclude_wins cliArgs options t :
  Forall (fun t => t ∈ ISSUE_TYPES) (checked_types cliArgs options) →
  t ∈ normalize (cli_exclude cliArgs) →
  ∃ m, getIncludedIssueTypes ISSUE_TYPES cliArgs options = Ok m
       ∧ m !! t = Some false.
Proof.
  intros Hvalid Hin. eexists. split; [by apply getIncludedIssueTypes_valid|].
  apply report_false.
  - apply (valid_elem cliArgs options); [done|].
    unfold checked_types, excl. rewrite !elem_of_app. tauto.
  - rewrite elem_of_included. intros [Hnot _]. apply Hnot.
    apply exclude0_in_exclude. unfold _exclude0, excl. apply elem_of_app. by left.
Qed.

(** A type included on the command line and not excluded there is
    [true] in the map even when the configuration (or a rule) excludes
    it; [devDependencies] and [optionalPeerDependencies] apart, which
    the mode and [dependencies] govern. *)
Theorem cli_include_overrides_config cliArgs options t :
  Forall (fun t => t ∈ ISSUE_TYPES) (checked_types cliArgs options) →
  t ∈ normalize (cli_include cliArgs) →
  t ∉ normalize (cli_exclude cliArgs) →
  t ≠ "devDependencies" → t ≠ "optionalPeerDependencies" →
  ∃ m, getIncludedIssueTypes ISSUE_TYPES cliArgs options = Ok m
       ∧ m !! t = Some true.
Proof.
  intros Hvalid Hin Hnot Hdev Hopt.
  eexists. split; [by apply getIncludedIssueTypes_valid|].
  apply report_true. split.
  - apply (valid_elem cliArgs options); [done|].
    unfold checked_types, incl0. rewrite !elem_of_app. tauto.
  - apply elem_of_included. split.
    + intros [Hex|[?|?]]%exclude_only_adds_dev; [|done..].
      unfold _exclude0 in Hex. apply elem_of_app in Hex as [Hex|Hex]; [done|].
      unfold excludes in Hex. apply list_elem_of_filter in Hex as [Hf _].
      apply negb_true_iff, includes_false in Hf. done.
    + apply requested_in_base, include0_in_include.
      unfold _include0. apply elem_of_app. left. by apply incl0_in_incl.
Qed.

(** A type is reported only if it is in the taxonomy, is not excluded,
    and was either requested or is a default type. *)
Theorem reported_types_sound cliArgs options t :
  report ISSUE_TYPES cliArgs options !! t = Some true →
  t ∈ ISSUE_TYPES
  ∧ (t ∉ _exclude cliArgs options)
  ∧ (t ∈ _include cliArgs options ∨ is_default_type ISSUE_TYPES t).
Proof.
  intros [HT Hin]%report_true. split; [done|].
  apply elem_of_included in Hin as [Hex Hbase]. split; [done|].
  destruct (0 <? length _)%nat; [|right; by apply elem_of_defaultIssueTypes].
  destruct (Js.some _ _); [by left|].
  apply elem_of_app in Hbase as [?|?]; [by left|right].
  by apply elem_of_defaultIssueTypes.
Qed.

Lemma split_comma_free s : Js.has_char "," s = false → Js.split "," s = [s].
Proof.
  induction s as [|c rest IH]; simpl; [done|].
  rewrite orb_false_iff. intros [Hc Hrest]. rewrite Hc, (IH Hrest). done.
Qed.

Lemma split_joined a b :
  Js.has_char "," a = false → Js.has_char "," b = false →
  Js.split "," (a +:+ "," +:+ b) = [a; b].
Proof.
  intros Ha Hb. induction a as [|c a IH].
  - change (Js.split "," (String "," b) = [""; b]). simpl.
    by rewrite (split_comma_free _ Hb).
  - simpl in Ha. apply orb_false_iff in Ha as [Hc Ha].
    rewrite append_cons. simpl. rewrite Hc, (IH Ha). done.
Qed.

Lemma has_char_joined a b : Js.has_char "," (a +:+ "," +:+ b) = true.
Proof.
  induction a as [|c a IH]; [done|].
  rewrite append_cons. simpl. rewrite IH. apply orb_true_r.
Qed.

(** Two types joined with a comma are accepted as one [--include]
    value, but the same string in the configured [include] list is
    rejected as an invalid type: only the CLI values are split. *)
Theorem comma_joined_cli_only (a b : string) :
  a ∈ ISSUE_TYPES → b ∈ ISSUE_TYPES →
  Forall (fun t => Js.has_char "," t = false) ISSUE_TYPES →
  getIncludedIssueTypes ISSUE_TYPES (cli [a +:+ "," +:+ b] []) no_options
  = Ok (report ISSUE_TYPES (cli [a; b] []) no_options)
  ∧ getIncludedIssueTypes ISSUE_TYPES (cli [] [])
      {| opt_include := Some [a +:+ "," +:+ b]; opt_exclude := None;
         opt_isProduction := None |}
    = Throw (ConfigurationError ("Invalid issue type: " +:+ a +:+ "," +:+ b)).
Proof.
  intros Ha Hb Hfree.
  pose proof (proj1 (Forall_forall _ _) Hfree) as Hfree'.
  assert (Js.split "," (a +:+ "," +:+ b) = [a; b]) as Hsplit
    by (apply split_joined; auto).
  split.
  - rewrite getIncludedIssueTypes_valid.
    + f_equal. unfold report, included, _include, _exclude, _include0, _exclude0,
        incl, includes, excludes, incl0, excl, normalize, Js.flatMap. simpl.
      rewrite Hsplit, !(split_comma_free a), !(split_comma_free b) by auto. done.
    + unfold checked_types, incl0, excl, normalize, Js.flatMap. simpl.
      rewrite Hsplit. by repeat constructor.
  - unfold getIncludedIssueTypes, checked_types, incl0, excl, normalize. simpl.
    replace (Js.includes ISSUE_TYPES (a +:+ "," +:+ b)) with false; [done|].
    symmetry. apply includes_false. intros Hin%Hfree'.
    by rewrite has_char_joined in Hin.
Qed.

(** A rule switched [off] disables its issue type, unless that type is
    included on the command line. *)
Theorem rule_off_excludes {Rules : Type} (getKeysByValue : Rules -> string -> list string)
    cliArgs (rules : Rules) config_include config_exclude isProduction t :
  Forall (fun t => t ∈ ISSUE_TYPES)
    (normalize (cli_include cliArgs) ++ normalize (cli_exclude cliArgs)
     ++ config_include ++ getKeysByValue rules "off" ++ config_exclude) →
  t ∈ getKeysByValue rules "off" →
  t ∉ normalize (cli_include cliArgs) →
  ∃ m, chief_getIncludedIssueTypes ISSUE_TYPES getKeysByValue cliArgs rules
         config_include config_exclude isProduction = Ok m
       ∧ m !! t = Some false.
Proof.
  intros Hvalid Hoff Hcli. unfold chief_getIncludedIssueTypes.
  eexists. split; [by apply getIncludedIssueTypes_valid|].
  apply report_false.
  - apply (proj1 (Forall_forall _ _) Hvalid). rewrite !elem_of_app. tauto.
  - rewrite elem_of_included. intros [Hnot _]. apply Hnot.
    apply exclude0_in_exclude. unfold _exclude0, excludes, exclude. simpl.
    apply elem_of_app. right. apply list_elem_of_filter. split.
    + by apply negb_true_iff, includes_false.
    + apply elem_of_app. by left.
Qed.

End Taxonomy.

Ltac computed := apply (bool_decide_unpack _); vm_compute; exact I.

Lemma cli_exclude_wins_witness :
  Forall (fun t => t ∈ named_issue_types)
    (checked_types (cli ["exports"] ["exports"]) no_options)
  ∧ "exports" ∈ normalize (cli_exclude (cli ["exports"] ["exports"]))
  ∧ ∃ m, getIncludedIssueTypes named_issue_types (cli ["exports"] ["exports"]) no_options
         = Ok m
         ∧ m !! "exports" = Some false.
Proof.
  assert (Forall (fun t => t ∈ named_issue_types)
            (checked_types (cli ["exports"] ["exports"]) no_options)) as Hvalid
    by computed.
  assert ("exports" ∈ normalize (cli_exclude (cli ["exports"] ["exports"]))) as Hin
    by computed.
  split; [done|]. split; [done|].
  exact (cli_exclude_wins named_issue_types (cli ["exports"] ["exports"]) no_options
           "exports" Hvalid Hin).
Defined.

Lemma cli_include_overrides_config_witness :
  Forall (fun t => t ∈ named_issue_types)
    (checked_types (cli ["types"] [])
       {| opt_include := None; opt_exclude := Some ["types"]; opt_isProduction := None |})
  ∧ "types" ∈ normalize (cli_include (cli ["types"] []))
  ∧ ("types" ∉ normalize (cli_exclude (cli ["types"] [])))
  ∧ "types" ≠ "devDependencies" ∧ "types" ≠ "optionalPeerDependencies"
  ∧ ∃ m, getIncludedIssueTypes named_issue_types (cli ["types"] [])
           {| opt_include := None; opt_exclude := Some ["types"];
              opt_isProduction := None |} = Ok m
         ∧ m !! "types" = Some true.
Proof.
  assert (Forall (fun t => t ∈ named_issue_types)
            (checked_types (cli ["types"] [])
               {| opt_include := None; opt_exclude := Some ["types"];
                  opt_isProduction := None |})) as Hvalid by computed.
  assert ("types" ∈ normalize (cli_include (cli ["types"] []))) as Hin by computed.
  assert ("types" ∉ normalize (cli_exclude (cli ["types"] []))) as Hnot by computed.
  assert ("types" ≠ "devDependencies") as Hdev by done.
  assert ("types" ≠ "optionalPeerDependencies") as Hopt by done.
  do 5 (split; [done|]).
  exact (cli_include_overrides_config named_issue_types (cli ["types"] []) _ "types"
           Hvalid Hin Hnot Hdev Hopt).
Defined.

Lemma reported_types_sound_witness :
  report named_issue_types (cli ["nsTypes"] []) no_options !! "files" = Some true
  ∧ "files" ∈ named_issue_types
  ∧ ("files" ∉ _exclude (cli ["nsTypes"] []) no_options)
  ∧ ("files" ∈ _include (cli ["nsTypes"] []) no_options
     ∨ is_default_type named_issue_types "files").
Proof.
  assert (report named_issue_types (cli ["nsTypes"] []) no_options !! "files" = Some true)
    as Hrep by (rewrite report_lookup; vm_compute; reflexivity).
  split; [done|].
  exact (reported_types_sound named_issue_types (cli ["nsTypes"] []) no_options "files"
           Hrep).
Defined.

Lemma comma_joined_cli_only_witness :
  "files" ∈ named_issue_types ∧ "exports" ∈ named_issue_types
  ∧ Forall (fun t => Js.has_char "," t = false) named_issue_types
  ∧ getIncludedIssueTypes named_issue_types (cli ["files" +:+ "," +:+ "exports"] [])
      no_options
    = Ok (report named_issue_types (cli ["files"; "exports"] []) no_options)
  ∧ getIncludedIssueTypes named_issue_types (cli [] [])
      {| opt_include := Some ["files" +:+ "," +:+ "exports"]; opt_exclude := None;
         opt_isProduction := None |}
    = Throw (ConfigurationError ("Invalid issue type: " +:+ "files" +:+ "," +:+ "exports")).
Proof.
  assert ("files" ∈ named_issue_types) as Ha by computed.
  assert ("exports" ∈ named_issue_types) as Hb by computed.
  assert (Forall (fun t => Js.has_char "," t = false) named_issue_types) as Hfree
    by computed.
  split; [done|]. split; [done|]. split; [done|].
  exact (comma_joined_cli_only named_issue_types "files" "exports" Ha Hb Hfree).
Defined.

Lemma rule_off_excludes_witness :
  Forall (fun t => t ∈ named_issue_types)
    (normalize (cli_include (cli ["files"] [])) ++ normalize (cli_exclude (cli ["files"] []))
     ++ ["types"; "exports"] ++ keys_by_value rules_types_off "off" ++ [])
  ∧ "types" ∈ keys_by_value rules_types_off "off"
  ∧ ("types" ∉ normalize (cli_include (cli ["files"] [])))
  ∧ ∃ m, chief_getIncludedIssueTypes named_issue_types keys_by_value (cli ["files"] [])
           rules_types_off ["types"; "exports"] [] false = Ok m
         ∧ m !! "types" = Some false.
Proof.
  assert (Forall (fun t => t ∈ named_issue_types)
            (normalize (cli_include (cli ["files"] []))
             ++ normalize (cli_exclude (cli ["files"] []))
             ++ ["types"; "exports"] ++ keys_by_value rules_types_off "off" ++ []))
    as Hvalid by computed.
  assert ("types" ∈ keys_by_value rules_types_off "off") as Hoff by computed.
  assert ("types" ∉ normalize (cli_include (cli ["files"] []))) as Hcli by computed.
  split; [done|]. split; [done|]. split; [done|].
  exact (rule_off_excludes named_issue_types keys_by_value (cli ["files"] [])
           rules_types_off ["types"; "exports"] [] false "types" Hvalid Hoff Hcli).
Defined.

End IssueMore.

(** ** Package discovery *)

Module DiscoveryMore.
Import Workspaces WalkProps ChiefProps.

(** [partition] keeps the order: the first list is the items the
    predicate accepts, the second the items it rejects. *)
Theorem partition_filter {T} (collection : list T) (predicate : T -> bool) :
  partition collection predicate
  = (filter (fun item => predicate item = true) collection,
     filter (fun item => predicate item = false) collection).
Proof.
  unfold partition.
  assert (∀ acc1 acc2,
            fold_left
              (fun (results : list T * list T) item =>
                 if predicate item then (results.1 ++ [item], results.2)
                 else (results.1, results.2 ++ [item]))
              collection (acc1, acc2)
            = (acc1 ++ filter (fun item => predicate item = true) collection,
               acc2 ++ filter (fun item => predicate item = false) collection)) as Hgen.
  { induction collection as [|x l IH]; intros acc1 acc2; simpl.
    - by rewrite !app_nil_r.
    - rewrite !filter_cons. destruct (predicate x) eqn:Hp; simpl; rewrite IH;
        by rewrite <- app_assoc. }
  apply (Hgen [] []).
Qed.

Lemma elem_of_map_set {V} k (v : V) m k' v' :
  (k', v') ∈ JsMap.set k v m → (k', v') = (k, v) ∨ (k', v') ∈ m.
Proof.
  induction m as [|[k0 v0] m IH]; simpl.
  - intros ?%list_elem_of_singleton. by left.
  - destruct (String.eqb k0 k).
    + rewrite !elem_of_cons. tauto.
    + rewrite !elem_of_cons. intros [?|H]; [tauto|]. apply IH in H. tauto.
Qed.

Lemma get_set_eq {V} k (v : V) m : JsMap.get k (JsMap.set k v m) = Some v.
Proof.
  induction m as [|[k0 v0] m IH]; simpl.
  - by rewrite String.eqb_refl.
  - destruct (String.eqb k0 k) eqn:Hk; simpl; [by rewrite String.eqb_refl|].
    by rewrite Hk.
Qed.

Lemma get_set_ne {V} k k' (v : V) m :
  k ≠ k' → JsMap.get k' (JsMap.set k v m) = JsMap.get k' m.
Proof.
  intros Hne. induction m as [|[k0 v0] m IH]; simpl.
  - by apply String.eqb_neq in Hne as ->.
  - destruct (String.eqb k0 k) eqn:Hk; simpl.
    + apply String.eqb_eq in Hk as ->.
      by apply String.eqb_neq in Hne as ->.
    + by rewrite IH.
Qed.

Section Discovery.

Variable join : string -> string -> string.
Variable fastGlob : string -> list string -> list string -> list string.
Variable _require : string -> result PackageJson.
Variable getPackageName : PackageJson -> string -> option string.
Variable isMatch : string -> list string -> bool.
Variable WorkspaceConfiguration : Type.
Variable IgnorePatterns : Type.

#[local] Set Default Proof Using "Type".

Abbreviation Chief := (ConfigurationChief WorkspaceConfiguration IgnorePatterns).
Abbreviation loop := (mapWorkspaces_loop join _require getPackageName).
Abbreviation manifest_path cwd name := (join (join cwd name) "package.json").

Abbreviation found := (manifest_found join _require).
Abbreviation loads := (manifest_loads join _require getPackageName).

(** A glob match whose manifest cannot be found is skipped: the result
    is the one for the matches that have a manifest. *)
Theorem stale_matches_skipped cwd matches acc :
  mapWorkspaces_loop join _require getPackageName cwd matches acc
  = mapWorkspaces_loop join _require getPackageName cwd
      (filter (fun name => manifest_found join _require cwd name = true) matches) acc.
Proof.
  revert acc. induction matches as [|name rest IH]; intros acc; [done|].
  rewrite filter_cons. destruct (decide (found cwd name = true)) as [Hf|Hf]; simpl.
  - destruct (mapWorkspaces_step _ _ _ _ _ _); simpl; [apply IH|done].
  - replace (mapWorkspaces_step join _require getPackageName cwd acc name)
      with (Ok acc); [apply IH|].
    unfold manifest_found in Hf. unfold mapWorkspaces_step. destruct acc.
    by destruct (_require _) as [|[]].
Qed.

Lemma mapWorkspaces_step_ok_iff cwd acc name :
  (∃ acc', mapWorkspaces_step join _require getPackageName cwd acc name = Ok acc')
  ↔ loads cwd name = true.
Proof.
  unfold manifest_loads, mapWorkspaces_step. destruct acc as [a b].
  destruct (_require (manifest_path cwd name)) as [manifest|[]]; simpl.
  - destruct (getPackageName manifest (join cwd name)) as [n|]; simpl.
    + destruct (String.eqb n ""); simpl; split; try done;
        [by intros [? ?]|by eexists].
    + split; [by intros [? ?]|done].
  - split; [by intros [? ?]|done].
  - split; [done|by eexists].
  - split; [by intros [? ?]|done].
Qed.

(** Discovery succeeds exactly when every match either has no manifest
    or has one with a package name. *)
Theorem mapWorkspaces_loop_succeeds_iff cwd matches acc :
  (∃ maps, mapWorkspaces_loop join _require getPackageName cwd matches acc = Ok maps)
  ↔ Forall (fun name => manifest_loads join _require getPackageName cwd name = true)
      matches.
Proof.
  revert acc. induction matches as [|name rest IH]; intros acc; simpl.
  - split; [constructor|by eexists].
  - rewrite Forall_cons, <- (mapWorkspaces_step_ok_iff cwd acc name). split.
    + intros [maps Hrun].
      destruct (mapWorkspaces_step _ _ _ _ _ _) as [acc'|e]; simpl in Hrun; [|done].
      split; [by eexists|]. apply (IH acc'). by eexists.
    + intros [[acc' ->] Hrest]. simpl. by apply IH.
Qed.

Abbreviation packages_fine := (packages_ok join).

Lemma keys_set_mono {V} k (v : V) m x : x ∈ JsMap.keys m → x ∈ JsMap.keys (JsMap.set k v m).
Proof.
  intros Hx. rewrite keys_set. case_bool_decide; [done|]. apply elem_of_app. by left.
Qed.

Lemma keys_set_new {V} k (v : V) m : k ∈ JsMap.keys (JsMap.set k v m).
Proof.
  rewrite keys_set. case_bool_decide; [done|]. apply elem_of_app. right. by left.
Qed.

Lemma mapWorkspaces_loop_packages cwd matches acc maps :
  packages_fine cwd acc →
  loop cwd matches acc = Ok maps →
  packages_fine cwd maps.
Proof.
  revert acc. induction matches as [|name rest IH]; intros acc Hacc; simpl.
  - by intros [= <-].
  - destruct (mapWorkspaces_step _ _ _ _ _ _) as [acc'|e] eqn:Hstep; simpl; [|done].
    apply IH. clear IH. revert Hstep.
    unfold mapWorkspaces_step. destruct acc as [a b].
    destruct (_require _) as [manifest|[]]; try done; [|by intros [= <-]].
    destruct (getPackageName manifest (join cwd name)) as [n|] eqn:Hn; [|done].
    destruct (String.eqb_spec n "") as [->|Hne]; [done|].
    intros [= <-]. destruct Hacc as [Hdir Hname]. split; simpl.
    + intros k pkg [[= -> ->]|Hin]%elem_of_map_set; [done|]. by apply Hdir.
    + intros n' pkg [[= -> ->]|Hin]%elem_of_map_set; simpl.
      * repeat split; try done. apply keys_set_new.
      * destruct (Hname n' pkg Hin) as (? & ? & ? & ?).
        repeat split; try done. by apply keys_set_mono.
Qed.

(** After a successful [mapWorkspaces] every package is filed under its
    own directory name with [dir = join(cwd, name)], every package
    filed under a name declares that non-empty name, and no directory
    or name occurs twice as a key. *)
Theorem mapWorkspaces_packages cwd workspaces maps :
  mapWorkspaces join fastGlob _require getPackageName cwd workspaces = Ok maps →
  packages_fine cwd maps
  ∧ NoDup (JsMap.keys maps.1) ∧ NoDup (JsMap.keys maps.2).
Proof.
  intros Hrun. split.
  - revert Hrun. unfold mapWorkspaces.
    destruct (partition _ _) as [negated patterns].
    destruct (_ && _).
    + intros [= <-]. split; simpl; by intros ?? ?%elem_of_nil.
    + apply mapWorkspaces_loop_packages.
      split; simpl; by intros ?? ?%elem_of_nil.
  - destruct maps as [byName byPkgName].
    by apply (mapWorkspaces_NoDup join fastGlob _require getPackageName cwd workspaces).
Qed.

(** [getAvailableWorkspacePkgNames] on names that are pairwise distinct
    returns the names that match no ignore pattern, in their order. *)
Theorem pkg_names_of_distinct (c : Chief) pkgNames :
  NoDup pkgNames →
  getAvailableWorkspacePkgNames isMatch _ _ c pkgNames
  = Ok (filter (fun n => isMatch n (ignoredWorkspacePatterns _ _ c) = false) pkgNames).
Proof.
  unfold getAvailableWorkspacePkgNames.
  assert (∀ names,
            NoDup pkgNames → (∀ x, x ∈ pkgNames → x ∉ names) →
            getAvailableWorkspacePkgNames_loop isMatch _ _ c pkgNames names
            = Ok (names ++ filter (fun n => isMatch n (ignoredWorkspacePatterns _ _ c)
                                           = false) pkgNames)) as Hgen.
  { induction pkgNames as [|p rest IH]; intros names Hnd Hfresh; simpl.
    - by rewrite app_nil_r.
    - apply NoDup_cons in Hnd as [Hp Hnd].
      assert (p ∉ names) as Hpn by (apply Hfresh; by left).
      unfold Js.set_has at 1. rewrite bool_decide_eq_false_2 by done.
      rewrite filter_cons.
      destruct (isMatch p (ignoredWorkspacePatterns _ _ c)) eqn:Hm; simpl.
      + apply IH; [done|]. intros x Hx. apply Hfresh. by right.
      + rewrite IH; [|done|].
        * unfold Js.set_add, Js.set_has. rewrite bool_decide_eq_false_2 by done.
          by rewrite <- app_assoc.
        * intros x Hx. rewrite elem_of_set_add. intros [->|Hin]; [done|].
          by apply (Hfresh x); [right|]. }
  intros Hnd. rewrite Hgen; [done|done|]. intros x _. apply not_elem_of_nil.
Qed.

Lemma pkg_names_loop_repeated (c : Chief) pkgNames names p :
  p ∈ pkgNames → p ∈ names →
  ∃ q, getAvailableWorkspacePkgNames_loop isMatch _ _ c pkgNames names
       = Throw (ConfigurationError ("Duplicate package name: " +:+ q)).
Proof.
  revert names. induction pkgNames as [|x rest IH]; intros names Hin Hnames.
  - by apply elem_of_nil in Hin.
  - simpl. unfold Js.set_has at 1. case_bool_decide as Hx; [by eexists|].
    apply elem_of_cons in Hin as [->|Hin]; [done|].
    apply IH; [done|]. destruct (negb _); [|done].
    apply elem_of_set_add. by right.
Qed.

(** Handed a list in which a name that matches no ignore pattern occurs
    twice, [getAvailableWorkspacePkgNames] throws a duplicate-name
    error. *)
Theorem pkg_names_duplicate_throws (c : Chief) before p between after :
  isMatch p (ignoredWorkspacePatterns _ _ c) = false →
  ∃ q, getAvailableWorkspacePkgNames isMatch _ _ c
         (before ++ p :: between ++ p :: after)
       = Throw (ConfigurationError ("Duplicate package name: " +:+ q)).
Proof.
  intros Hm. unfold getAvailableWorkspacePkgNames. generalize (@nil string) as names.
  induction before as [|x before IH]; intros names; simpl.
  - unfold Js.set_has at 1. case_bool_decide as Hp; [by eexists|].
    rewrite Hm. simpl. apply (pkg_names_loop_repeated c _ _ p).
    + apply elem_of_app. right. by left.
    + apply elem_of_set_add. by left.
  - unfold Js.set_has at 1. case_bool_decide as Hx; [by eexists|]. apply IH.
Qed.

End Discovery.

End DiscoveryMore.

(** ** Scope resolution *)

Module ScopeMore.
Import Workspaces WalkProps ChiefProps.

Lemma NoDup_fold_set_add {A} (f : A -> string) l acc :
  NoDup acc → NoDup (fold_left (fun ws d => Js.set_add (f d) ws) l acc).
Proof.
  revert acc. induction l as [|d l IH]; intros acc Hacc; simpl; [done|].
  by apply IH, NoDup_set_add.
Qed.

Lemma find_by_key {A} (key : A -> string) (l : list A) x :
  NoDup (key <$> l) → x ∈ l →
  Js.find (fun y => String.eqb (key y) (key x)) l = Some x.
Proof.
  unfold Js.find. induction l as [|y l IH]; intros Hnd Hin.
  - by apply elem_of_nil in Hin.
  - simpl in *. apply NoDup_cons in Hnd as [Hy Hnd].
    apply elem_of_cons in Hin as [->|Hin]; [by rewrite String.eqb_refl|].
    destruct (String.eqb_spec (key y) (key x)) as [Heq|Hne]; [|by apply IH].
    destruct Hy. rewrite Heq. by apply list_elem_of_fmap_2.
Qed.

Lemma find_none_all {A} (f : A -> bool) (l : list A) :
  (∀ x, x ∈ l → f x = false) → Js.find f l = None.
Proof.
  unfold Js.find. induction l as [|y l IH]; intros Hall; simpl; [done|].
  rewrite (Hall y) by by left. apply IH. intros x Hx. apply Hall. by right.
Qed.

Lemma strip_trailing_slash_app n : Js.strip_trailing_slash (n +:+ "/") = n.
Proof.
  induction n as [|c rest IH]; [done|].
  rewrite TagProps.append_cons. simpl. rewrite IH.
  by destruct rest.
Qed.

Section Chief.

Variable ROOT_WORKSPACE_NAME : string.
Variable join : string -> string -> string.
Variable relative : string -> string -> string.
Variable existsSync : string -> bool.
Variable byPathDepth : string -> string -> Z.
Variable WorkspaceConfiguration : Type.
Variable IgnorePatterns : Type.
Variable getConfigForWorkspace : string -> WorkspaceConfiguration.
Variable getIgnoreMembers : string -> IgnorePatterns.

#[local] Set Default Proof Using "Type".

Abbreviation Chief := (ConfigurationChief WorkspaceConfiguration IgnorePatterns).
Abbreviation determine :=
  (determineIncludedWorkspaces ROOT_WORKSPACE_NAME join relative existsSync
     byPathDepth WorkspaceConfiguration IgnorePatterns
     getConfigForWorkspace getIgnoreMembers).
Abbreviation names_of :=
  (included_names ROOT_WORKSPACE_NAME join relative
     WorkspaceConfiguration IgnorePatterns).
Abbreviation to_workspace :=
  (toWorkspace ROOT_WORKSPACE_NAME join WorkspaceConfiguration IgnorePatterns
     getConfigForWorkspace getIgnoreMembers).
Abbreviation name_of := (ws_name WorkspaceConfiguration IgnorePatterns).

(** Every way out of [determineIncludedWorkspaces] with a list goes
    through [ws]. *)
Lemma determine_ok_inv workspaceArg fuel (c : Chief) wss :
  determine workspaceArg fuel c = Some (Ok wss) →
  ∃ ws, names_of workspaceArg fuel c = Some ws
        ∧ wss = map (to_workspace c) (Js.sort byPathDepth ws).
Proof.
  unfold determineIncludedWorkspaces.
  destruct (selector workspaceArg) as [w|].
  - destruct (existsSync w); simpl; [|done].
    destruct (included_names _ _ _ _ _ _ _ _) as [ws|]; simpl; [|done].
    intros [= <-]. by exists ws.
  - destruct (included_names _ _ _ _ _ _ _ _) as [ws|]; simpl; [|done].
    intros [= <-]. by exists ws.
Qed.

Lemma names_of_NoDup workspaceArg fuel (c : Chief) ws :
  names_of workspaceArg fuel c = Some ws → NoDup ws.
Proof.
  unfold included_names. destruct (selector workspaceArg) as [w|].
  - destruct (isStrict _ _ c).
    + intros [= <-]. apply NoDup_set_add. constructor.
    + destruct (packageGraph _ _ c) as [graph|]; [|intros [= <-]; constructor].
      destruct (forEach_addDependents _ _ _ _ _) as [st|]; [|done].
      intros [= <-]. apply NoDup_fold_set_add. constructor.
  - intros [= <-]. apply (NoDup_fold_set_add (fun x => x)). constructor.
Qed.

Lemma resolved_names_NoDup workspaceArg fuel (c : Chief) wss :
  determine workspaceArg fuel c = Some (Ok wss) → NoDup (name_of <$> wss).
Proof.
  intros (ws & Hws & ->)%determine_ok_inv.
  rewrite ws_name_to_workspace, sort_perm. by eapply names_of_NoDup.
Qed.

(** No workspace is listed twice in the scope, in any of the three
    modes. *)
Theorem included_names_distinct workspaceArg fuel (c : Chief) wss :
  determineIncludedWorkspaces ROOT_WORKSPACE_NAME join relative existsSync
    byPathDepth _ _ getConfigForWorkspace getIgnoreMembers workspaceArg fuel c
  = Some (Ok wss) →
  NoDup (name_of <$> wss).
Proof. apply resolved_names_NoDup. Qed.

(** Without a selector (none given, or the empty string) the scope is
    every available workspace name: no error, no fuel needed, neither
    the file system nor the graph is consulted. *)
Theorem no_selector_includes_all fuel (c : Chief) :
  (∃ wss, determineIncludedWorkspaces ROOT_WORKSPACE_NAME join relative existsSync
    byPathDepth _ _ getConfigForWorkspace getIgnoreMembers None fuel c
          = Some (Ok wss)
          ∧ ∀ n, n ∈ name_of <$> wss ↔ n ∈ availableWorkspaceNames _ _ c)
  ∧ determineIncludedWorkspaces ROOT_WORKSPACE_NAME join relative existsSync
    byPathDepth _ _ getConfigForWorkspace getIgnoreMembers (Some "") fuel c
    = determineIncludedWorkspaces ROOT_WORKSPACE_NAME join relative existsSync
    byPathDepth _ _ getConfigForWorkspace getIgnoreMembers None fuel c.
Proof.
  split; [|done]. eexists. split; [done|].
  intros n. rewrite elem_of_resolved_names.
  rewrite (elem_of_fold_set_add (fun x => x)), elem_of_nil.
  unfold workspaceNames. simpl. split.
  - intros [[]|(d & Hd & ->)]. done.
  - intros Hn. right. by exists n.
Qed.

(** A selector whose directory does not exist is a configuration error
    in either mode, before the graph is looked at. *)
Theorem missing_directory_rejected fuel (c : Chief) w :
  w ≠ "" → existsSync w = false →
  determine (Some w) fuel c
  = Some (Throw (ConfigurationError ("Directory does not exist: " +:+ w))).
Proof.
  intros Hw Hex. unfold determineIncludedWorkspaces.
  by rewrite (selector_truthy w Hw), Hex.
Qed.

(** Each workspace in the scope has [dir = join(cwd, name)], its
    manifest path below that, and as ancestors only available workspace
    names other than its own that are the root or a path prefix of its
    name. *)
Theorem included_workspaces_well_formed workspaceArg fuel (c : Chief) wss :
  determine workspaceArg fuel c = Some (Ok wss) →
  Forall
    (fun ws =>
       ws_dir _ _ ws = join (cwd _ _ c) (name_of ws)
       ∧ ws_manifestPath _ _ ws = join (ws_dir _ _ ws) "package.json"
       ∧ Forall
           (fun a =>
              a ∈ availableWorkspaceNames _ _ c ∧ a ≠ name_of ws
              ∧ (a = ROOT_WORKSPACE_NAME ∨ Js.startsWith (name_of ws) (a +:+ "/") = true))
           (ws_ancestors _ _ ws))
    wss.
Proof.
  intros (ws & _ & ->)%determine_ok_inv.
  apply Forall_forall. intros x (n & -> & _)%list_elem_of_fmap.
  split; [done|]. split; [done|]. simpl.
  apply Forall_forall. intros a Ha.
  apply elem_of_fold_getAncestors in Ha as [Ha|Ha]; [by apply elem_of_nil in Ha|done].
Qed.

(** [getAncestors] and [getDescendentWorkspaces] agree: among the
    available workspaces, [a] is an ancestor of [w] exactly when [w] is
    a descendant of [a]. *)
Theorem ancestors_descendants_dual (c : Chief) a w :
  a ∈ availableWorkspaceNames _ _ c → w ∈ availableWorkspaceNames _ _ c →
  a ∈ fold_left (getAncestors ROOT_WORKSPACE_NAME w) (availableWorkspaceNames _ _ c) []
  ↔ w ∈ getDescendentWorkspaces ROOT_WORKSPACE_NAME _ _ c a.
Proof.
  intros Ha Hw. rewrite elem_of_fold_getAncestors, elem_of_nil.
  unfold getDescendentWorkspaces. rewrite !list_elem_of_filter.
  rewrite negb_true_iff, orb_true_iff, String.eqb_neq, String.eqb_eq.
  split.
  - intros [[]|(_ & Hne & Hanc)]. split; [done|]. split; [congruence|done].
  - intros (Hanc & Hne & _). right. split; [done|]. split; [congruence|done].
Qed.

(** Looking a workspace of the scope up by its name finds that very
    workspace; a name outside the scope finds nothing. *)
Theorem findWorkspaceByName_round_trip workspaceArg fuel (c c' : Chief) wss :
  determine workspaceArg fuel c = Some (Ok wss) →
  includedWorkspaces _ _ c' = wss →
  Forall (fun ws => findWorkspaceByName _ _ c' (name_of ws) = Some ws) wss
  ∧ ∀ n, n ∉ name_of <$> wss → findWorkspaceByName _ _ c' n = None.
Proof.
  intros Hrun Hinc. pose proof (resolved_names_NoDup _ _ _ _ Hrun) as Hnd.
  unfold findWorkspaceByName. rewrite Hinc. clear Hrun Hinc. split.
  - apply Forall_forall. intros ws Hws. by apply (find_by_key name_of).
  - intros n Hn. apply find_none_all. intros ws Hws.
    apply String.eqb_neq. intros <-. apply Hn.
    by apply list_elem_of_fmap_2.
Qed.

(** A workspace found for a file path is in the scope, and its
    directory followed by a slash is a prefix of the path and is the
    first available directory with that property. *)
Theorem findWorkspaceByFilePath_prefix (c : Chief) filePath ws :
  findWorkspaceByFilePath _ _ c filePath = Some ws →
  ws ∈ includedWorkspaces _ _ c
  ∧ Js.startsWith filePath (ws_dir _ _ ws +:+ "/") = true
  ∧ ∃ before after,
      availableWorkspaceDirs _ _ c = before ++ ws_dir _ _ ws :: after
      ∧ Forall (fun d => Js.startsWith filePath (d +:+ "/") = false) before.
Proof.
  unfold findWorkspaceByFilePath, Js.find. intros Hfind.
  apply find_some in Hfind as [Hin Heq].
  apply bool_decide_eq_true in Heq. symmetry in Heq.
  split; [by apply list_elem_of_In|].
  revert Heq. generalize (ws_dir _ _ ws) as d.
  induction (availableWorkspaceDirs _ _ c) as [|x l IH]; intros d; simpl; [done|].
  destruct (Js.startsWith filePath (x +:+ "/")) eqn:Hx.
  - intros [= ->]. split; [done|]. by exists [], l.
  - intros Hd. destruct (IH d Hd) as (Hpre & before & after & -> & Hbefore).
    split; [done|]. exists (x :: before), after. split; [done|]. by constructor.
Qed.


End Chief.

End ScopeMore.

(** ** [setWorkspaces] as a whole *)

Module SetupMore.
Import Workspaces WalkProps ChiefProps DiscoveryMore ScopeMore.

Section Chief.

Variable ROOT_WORKSPACE_NAME : string.
Variable join : string -> string -> string.
Variable relative : string -> string -> string.
Variable existsSync : string -> bool.
Variable byPathDepth : string -> string -> Z.
Variable isMatch : string -> list string -> bool.
Variable fastGlob : string -> list string -> list string -> list string.
Variable _dirGlob : string -> list string -> list string.
Variable _require : string -> result PackageJson.
Variable getPackageName : PackageJson -> string -> option string.
Variable createPkgGraph :
  string -> list string -> list string ->
  JsMap.t Package -> JsMap.t Package -> Graph.
Variable WorkspaceConfiguration : Type.
Variable IgnorePatterns : Type.
Variable getConfigForWorkspace : string -> WorkspaceConfiguration.
Variable getIgnoreMembers : string -> IgnorePatterns.
Variable workspaceArg : option string.

#[local] Set Default Proof Using "Type".

Abbreviation Chief := (ConfigurationChief WorkspaceConfiguration IgnorePatterns).
Abbreviation set_workspaces :=
  (setWorkspaces ROOT_WORKSPACE_NAME join relative existsSync byPathDepth isMatch
     fastGlob _dirGlob _require getPackageName createPkgGraph
     WorkspaceConfiguration IgnorePatterns getConfigForWorkspace getIgnoreMembers
     workspaceArg).

(** When [setWorkspaces] succeeds the package graph is set, the
    directories are the available names joined to [cwd] one for one,
    no key of the two package maps occurs twice, the root manifest is
    the manifest of the workspace [.], and the scope has no workspace
    twice. *)
Theorem setWorkspaces_establishes fuel (c c' : Chief) :
  set_workspaces fuel c = Some (Ok c') →
  cwd _ _ c' = cwd _ _ c
  ∧ is_Some (packageGraph _ _ c')
  ∧ availableWorkspaceDirs _ _ c'
    = map (join (cwd _ _ c')) (availableWorkspaceNames _ _ c')
  ∧ NoDup (JsMap.keys (workspacePackages _ _ c'))
  ∧ NoDup (JsMap.keys (workspacePackagesByName _ _ c'))
  ∧ (∀ m, manifest _ _ c = Some m →
          getManifestForWorkspace _ _ c' "." = Some m)
  ∧ NoDup (ws_name _ _ <$> getIncludedWorkspaces _ _ c').
Proof.
  unfold setWorkspaces.
  destruct (mapWorkspaces _ _ _ _ _ _) as [[byName byPkgName]|e] eqn:Hmap; [|done].
  apply mapWorkspaces_NoDup in Hmap as [HbyName HbyPkgName].
  destruct (getAvailableWorkspacePkgNames _ _ _ _ _) as [pkgNames|e]; [|done].
  destruct (determineIncludedWorkspaces _ _ _ _ _ _ _ _ _ _ _ _) as [[wss|e]|] eqn:Hdet;
    [|done..].
  intros [= <-]. apply resolved_names_NoDup in Hdet.
  unfold addRootPackage, getManifestForWorkspace. simpl.
  destruct (manifest _ _ c) as [m|] eqn:Hm; simpl.
  - repeat split; try done; try by apply keys_set_NoDup.
    intros m' [= <-]. by rewrite get_set_eq.
  - repeat split; done.
Qed.

End Chief.

End SetupMore.

(** ** The properties on the example repository *)

Module MonorepoMore.
Import Workspaces WalkProps ChiefProps DiscoveryMore ScopeMore SetupMore.

Ltac computed := apply (bool_decide_unpack _); vm_compute; exact I.

Abbreviation determine :=
  (determineIncludedWorkspaces Monorepo.ROOT_WORKSPACE_NAME Monorepo.join
     Monorepo.relative Monorepo.existsSync Monorepo.byPathDepth unit unit
     Monorepo.getConfigForWorkspace Monorepo.getIgnoreMembers).
Abbreviation map_workspaces :=
  (mapWorkspaces Monorepo.join Monorepo.fastGlob (Monorepo._require "a" "b")
     Monorepo.getPackageName).
Abbreviation name_of := (ws_name unit unit).
Abbreviation selected := (Some "packages/a").

Lemma mapWorkspaces_packages_witness :
  map_workspaces "/repo" ["packages/*"]
  = Ok ([("packages/a", Monorepo.package_a); ("packages/b", Monorepo.package_b)],
        [("a", Monorepo.package_a); ("b", Monorepo.package_b)])
  ∧ packages_ok Monorepo.join "/repo"
      ([("packages/a", Monorepo.package_a); ("packages/b", Monorepo.package_b)],
       [("a", Monorepo.package_a); ("b", Monorepo.package_b)])
  ∧ NoDup ["packages/a"; "packages/b"] ∧ NoDup ["a"; "b"].
Proof.
  assert (map_workspaces "/repo" ["packages/*"]
          = Ok ([("packages/a", Monorepo.package_a); ("packages/b", Monorepo.package_b)],
                [("a", Monorepo.package_a); ("b", Monorepo.package_b)])) as Hrun
    by (vm_compute; reflexivity).
  split; [exact Hrun|].
  exact (mapWorkspaces_packages _ _ _ _ _ _ _ Hrun).
Defined.

Lemma pkg_names_of_distinct_witness :
  NoDup ["a"; "b"; "root"]
  ∧ getAvailableWorkspacePkgNames Monorepo.isMatch unit unit (Monorepo.discovered false)
      ["a"; "b"; "root"]
    = Ok ["a"; "b"; "root"].
Proof.
  assert (NoDup ["a"; "b"; "root"]) as Hnd by computed.
  split; [exact Hnd|].
  exact (pkg_names_of_distinct Monorepo.isMatch unit unit (Monorepo.discovered false)
           ["a"; "b"; "root"] Hnd).
Defined.

Lemma pkg_names_duplicate_throws_witness :
  Monorepo.isMatch "dup" [] = false
  ∧ ∃ q, getAvailableWorkspacePkgNames Monorepo.isMatch unit unit
           (Monorepo.discovered false) (["root"] ++ "dup" :: [] ++ "dup" :: [])
         = Throw (ConfigurationError ("Duplicate package name: " +:+ q)).
Proof.
  assert (Monorepo.isMatch "dup" [] = false) as Hm by reflexivity.
  split; [exact Hm|].
  exact (pkg_names_duplicate_throws Monorepo.isMatch unit unit (Monorepo.discovered false)
           ["root"] "dup" [] [] Hm).
Defined.

Lemma included_names_distinct_witness :
  determine selected 2 (Monorepo.discovered false) = Some (Ok Monorepo.included_all)
  ∧ NoDup (name_of <$> Monorepo.included_all).
Proof.
  assert (determine selected 2 (Monorepo.discovered false)
          = Some (Ok Monorepo.included_all)) as Hrun by (vm_compute; reflexivity).
  split; [exact Hrun|].
  exact (included_names_distinct _ _ _ _ _ _ _ _ _ _ _ _ _ Hrun).
Defined.

Lemma missing_directory_rejected_witness :
  "packages/x" ≠ ""
  ∧ (fun _ : string => false) "packages/x" = false
  ∧ determineIncludedWorkspaces Monorepo.ROOT_WORKSPACE_NAME Monorepo.join
      Monorepo.relative (fun _ => false) Monorepo.byPathDepth unit unit
      Monorepo.getConfigForWorkspace Monorepo.getIgnoreMembers
      (Some "packages/x") 0 (Monorepo.discovered true)
    = Some (Throw (ConfigurationError ("Directory does not exist: " +:+ "packages/x"))).
Proof.
  assert ("packages/x" ≠ "") as Hw by done.
  split; [exact Hw|]. split; [reflexivity|].
  exact (missing_directory_rejected Monorepo.ROOT_WORKSPACE_NAME Monorepo.join
           Monorepo.relative (fun _ => false) Monorepo.byPathDepth unit unit
           Monorepo.getConfigForWorkspace Monorepo.getIgnoreMembers
           0 (Monorepo.discovered true) "packages/x" Hw eq_refl).
Defined.

Lemma included_workspaces_well_formed_witness :
  determine selected 2 (Monorepo.discovered false) = Some (Ok Monorepo.included_all)
  ∧ Forall
      (fun ws =>
         ws_dir _ _ ws = Monorepo.join "/repo" (name_of ws)
         ∧ ws_manifestPath _ _ ws = Monorepo.join (ws_dir _ _ ws) "package.json"
         ∧ Forall
             (fun a =>
                a ∈ ["packages/b"; "packages/a"; "."] ∧ a ≠ name_of ws
                ∧ (a = Monorepo.ROOT_WORKSPACE_NAME
                   ∨ Js.startsWith (name_of ws) (a +:+ "/") = true))
             (ws_ancestors _ _ ws))
      Monorepo.included_all.
Proof.
  assert (determine selected 2 (Monorepo.discovered false)
          = Some (Ok Monorepo.included_all)) as Hrun by (vm_compute; reflexivity).
  split; [exact Hrun|].
  exact (included_workspaces_well_formed _ _ _ _ _ _ _ _ _ _ _ _ _ Hrun).
Defined.

Lemma ancestors_descendants_dual_witness :
  "." ∈ availableWorkspaceNames _ _ (Monorepo.discovered false)
  ∧ "packages/a" ∈ availableWorkspaceNames _ _ (Monorepo.discovered false)
  ∧ ("." ∈ fold_left (getAncestors Monorepo.ROOT_WORKSPACE_NAME "packages/a")
              (availableWorkspaceNames _ _ (Monorepo.discovered false)) []
     ↔ "packages/a" ∈ getDescendentWorkspaces Monorepo.ROOT_WORKSPACE_NAME _ _
                         (Monorepo.discovered false) ".").
Proof.
  assert ("." ∈ availableWorkspaceNames _ _ (Monorepo.discovered false)) as Ha
    by computed.
  assert ("packages/a" ∈ availableWorkspaceNames _ _ (Monorepo.discovered false)) as Hw
    by computed.
  split; [exact Ha|]. split; [exact Hw|].
  exact (ancestors_descendants_dual Monorepo.ROOT_WORKSPACE_NAME unit unit
           (Monorepo.discovered false) "." "packages/a" Ha Hw).
Defined.

Lemma findWorkspaceByName_round_trip_witness :
  determine selected 2 (Monorepo.discovered false) = Some (Ok Monorepo.included_all)
  ∧ includedWorkspaces _ _ Monorepo.resolved = Monorepo.included_all
  ∧ Forall (fun ws => findWorkspaceByName _ _ Monorepo.resolved (name_of ws) = Some ws)
      Monorepo.included_all
  ∧ ∀ n, n ∉ name_of <$> Monorepo.included_all →
         findWorkspaceByName _ _ Monorepo.resolved n = None.
Proof.
  assert (determine selected 2 (Monorepo.discovered false)
          = Some (Ok Monorepo.included_all)) as Hrun by (vm_compute; reflexivity).
  split; [exact Hrun|]. split; [reflexivity|].
  exact (findWorkspaceByName_round_trip Monorepo.ROOT_WORKSPACE_NAME Monorepo.join
           Monorepo.relative Monorepo.existsSync Monorepo.byPathDepth unit unit
           Monorepo.getConfigForWorkspace Monorepo.getIgnoreMembers
           selected 2 (Monorepo.discovered false) Monorepo.resolved
           Monorepo.included_all Hrun eq_refl).
Defined.

Lemma findWorkspaceByFilePath_prefix_witness :
  findWorkspaceByFilePath _ _ Monorepo.resolved "/repo/packages/a/src/index.ts"
  = Some (Monorepo.workspace "packages/a" "a" "/repo/packages/a" ["."])
  ∧ Monorepo.workspace "packages/a" "a" "/repo/packages/a" ["."]
    ∈ includedWorkspaces _ _ Monorepo.resolved
  ∧ Js.startsWith "/repo/packages/a/src/index.ts" ("/repo/packages/a" +:+ "/") = true
  ∧ ∃ before after,
      availableWorkspaceDirs _ _ Monorepo.resolved = before ++ "/repo/packages/a" :: after
      ∧ Forall (fun d => Js.startsWith "/repo/packages/a/src/index.ts" (d +:+ "/") = false)
          before.
Proof.
  assert (findWorkspaceByFilePath _ _ Monorepo.resolved "/repo/packages/a/src/index.ts"
          = Some (Monorepo.workspace "packages/a" "a" "/repo/packages/a" ["."])) as Hrun
    by (vm_compute; reflexivity).
  split; [exact Hrun|].
  exact (findWorkspaceByFilePath_prefix unit unit Monorepo.resolved _ _ Hrun).
Defined.


Abbreviation m_setWorkspaces :=
  (setWorkspaces Monorepo.ROOT_WORKSPACE_NAME Monorepo.join Monorepo.relative
     Monorepo.existsSync Monorepo.byPathDepth Monorepo.isMatch Monorepo.fastGlob
     Monorepo._dirGlob (Monorepo._require "a" "b") Monorepo.getPackageName
     Monorepo.createPkgGraph unit unit Monorepo.getConfigForWorkspace
     Monorepo.getIgnoreMembers).

Lemma setWorkspaces_establishes_witness :
  m_setWorkspaces selected 2 (Monorepo.chief false) = Some (Ok Monorepo.resolved)
  ∧ cwd _ _ Monorepo.resolved = cwd _ _ (Monorepo.chief false)
  ∧ is_Some (packageGraph _ _ Monorepo.resolved)
  ∧ availableWorkspaceDirs _ _ Monorepo.resolved
    = map (Monorepo.join (cwd _ _ Monorepo.resolved))
        (availableWorkspaceNames _ _ Monorepo.resolved)
  ∧ NoDup (JsMap.keys (workspacePackages _ _ Monorepo.resolved))
  ∧ NoDup (JsMap.keys (workspacePackagesByName _ _ Monorepo.resolved))
  ∧ (∀ m, manifest _ _ (Monorepo.chief false) = Some m →
          getManifestForWorkspace _ _ Monorepo.resolved "." = Some m)
  ∧ NoDup (name_of <$> getIncludedWorkspaces _ _ Monorepo.resolved).
Proof.
  assert (m_setWorkspaces selected 2 (Monorepo.chief false)
          = Some (Ok Monorepo.resolved)) as Hrun by (vm_compute; reflexivity).
  split; [exact Hrun|].
  exact (setWorkspaces_establishes Monorepo.ROOT_WORKSPACE_NAME Monorepo.join
           Monorepo.relative Monorepo.existsSync Monorepo.byPathDepth Monorepo.isMatch
           Monorepo.fastGlob Monorepo._dirGlob (Monorepo._require "a" "b")
           Monorepo.getPackageName Monorepo.createPkgGraph unit unit
           Monorepo.getConfigForWorkspace Monorepo.getIgnoreMembers
           selected 2 (Monorepo.chief false) Monorepo.resolved Hrun).
Defined.

End MonorepoMore.
